(** * gitgsearch: normalisation and overlap-matching core

    A shallow embedding of [scripts/normalize.py] and
    [scripts/cross_reference.py].

    Conventions of the model:
    - a Python [str] is a [string]; the text handled here is ASCII, on which
      Python's Unicode-aware [upper], [lower], [strip], [\s] and [\d] agree
      with the character tests below;
    - a Python [int] is a [Z];
    - a raised exception is the [Raise] case of [result];
    - a [dict] used only through lookups is a [gmap], a [dict] that is
      iterated is the list of its items in iteration order. *)

From Stdlib Require Import ZArith QArith Lia Ascii.
From stdpp Require Import base gmap strings list list_numbers sorting.

Local Open Scope Z_scope.

(** ** Characters and strings *)

Module Text.

(** [str.isspace] and the class [\s] on ASCII: TAB..CR, FS..US and space. *)
Definition is_space (c : ascii) : bool :=
  let n := N_of_ascii c in
  ((9 <=? n)%N && (n <=? 13)%N) || ((28 <=? n)%N && (n <=? 32)%N).

(** The class [\d] on ASCII. *)
Definition is_digit (c : ascii) : bool :=
  let n := N_of_ascii c in (48 <=? n)%N && (n <=? 57)%N.

Definition upper_char (c : ascii) : ascii :=
  let n := N_of_ascii c in
  if (97 <=? n)%N && (n <=? 122)%N then ascii_of_N (n - 32) else c.

Definition lower_char (c : ascii) : ascii :=
  let n := N_of_ascii c in
  if (65 <=? n)%N && (n <=? 90)%N then ascii_of_N (n + 32) else c.

Fixpoint smap (f : ascii -> ascii) (s : string) : string :=
  match s with
  | EmptyString => EmptyString
  | String c s' => String (f c) (smap f s')
  end.

(** [s.upper()] and [s.lower()] *)
Definition upper (s : string) : string := smap upper_char s.
Definition lower (s : string) : string := smap lower_char s.

Fixpoint lstrip (s : string) : string :=
  match s with
  | String c s' => if is_space c then lstrip s' else s
  | EmptyString => EmptyString
  end.

Fixpoint rstrip (s : string) : string :=
  match s with
  | String c s' =>
      match rstrip s' with
      | EmptyString => if is_space c then EmptyString else String c EmptyString
      | t => String c t
      end
  | EmptyString => EmptyString
  end.

(** [s.strip()] *)
Definition strip (s : string) : string := rstrip (lstrip s).

(** [s.startswith(p)] *)
Fixpoint startswith (s p : string) : bool :=
  match p, s with
  | EmptyString, _ => true
  | String a p', String b s' => if Ascii.eqb a b then startswith s' p' else false
  | String _ _, EmptyString => false
  end.

(** [sub in s] *)
Fixpoint contains (sub s : string) : bool :=
  startswith s sub ||
  match s with
  | String _ s' => contains sub s'
  | EmptyString => false
  end.

(** [s[n:]] and [s[:n]] for [0 <= n] *)
Fixpoint drop_str (n : nat) (s : string) : string :=
  match n, s with
  | S n', String _ s' => drop_str n' s'
  | _, _ => s
  end.

Fixpoint take_str (n : nat) (s : string) : string :=
  match n, s with
  | S n', String c s' => String c (take_str n' s')
  | _, _ => EmptyString
  end.

Fixpoint all_chars (p : ascii -> bool) (s : string) : bool :=
  match s with
  | EmptyString => true
  | String c s' => p c && all_chars p s'
  end.

(** [re.sub(r'\s+', ' ', s)]: every maximal run of whitespace becomes one
    space. *)
Fixpoint collapse_ws (s : string) : string :=
  match s with
  | EmptyString => EmptyString
  | String c s' =>
      if is_space c then
        match s' with
        | String c' _ => if is_space c' then collapse_ws s' else String " " (collapse_ws s')
        | EmptyString => String " " EmptyString
        end
      else String c (collapse_ws s')
  end.

End Text.

(** ** Exceptions *)

Inductive exn := ValueError | IndexError.

Inductive result (A : Type) : Type :=
| Ok (a : A)
| Raise (e : exn).
Arguments Ok {A} a.
Arguments Raise {A} e.

Global Instance result_bind : MBind result := fun A B f m =>
  match m with
  | Ok a => f a
  | Raise e => Raise e
  end.

Global Instance result_ret : MRet result := fun A a => Ok a.

(** ** Integers as text *)

Module PyInt.
Import Text.

Definition digit_val (c : ascii) : Z := Z.of_N (N_of_ascii c) - 48.
Definition digit_char (d : Z) : ascii := ascii_of_N (Z.to_N (d + 48)).

Fixpoint int_digits (acc : Z) (s : string) : result Z :=
  match s with
  | EmptyString => Ok acc
  | String c s' =>
      if is_digit c then int_digits (10 * acc + digit_val c) s' else Raise ValueError
  end.

(** [int(s)] for a string of decimal digits; anything else is taken to raise
    [ValueError] (Python also accepts a sign, blanks and underscores, which
    never reach [int] here). *)
Definition int (s : string) : result Z :=
  match s with
  | EmptyString => Raise ValueError
  | _ => int_digits 0 s
  end.

Fixpoint str_nonneg (fuel : nat) (n : Z) (acc : string) : string :=
  let acc' := String (digit_char (n mod 10)) acc in
  match fuel with
  | O => acc'
  | S f => if n <? 10 then acc' else str_nonneg f (n / 10) acc'
  end.

(** [str(n)], which is also how an f-string renders [n]; the number of
    decimal digits of [n] is at most [log2 n + 1]. *)
Definition str (n : Z) : string :=
  if n <? 0 then String "-" (str_nonneg (Z.to_nat (Z.log2 (- n))) (- n) EmptyString)
  else str_nonneg (Z.to_nat (Z.log2 n)) n EmptyString.

(** [list(range(a, b))] *)
Definition range (a b : Z) : list Z := seqZ a (b - a).

End PyInt.

(** ** The fragment of [re] the year patterns need *)

Module Re.
Import Text.

Inductive regex :=
| Class (p : ascii -> bool)   (* one character of a class: \d, \s, a literal *)
| Star (p : ascii -> bool)    (* greedy repetition of a class: \s* *)
| Seq (r1 r2 : regex)
| Group (r : regex).          (* capturing group *)

(** Greedy repetition with backtracking: the longest run first. *)
Fixpoint star_k {R} (p : ascii -> bool) (s : string) (k : string -> option R) : option R :=
  match s with
  | String c s' =>
      if p c then
        match star_k p s' k with
        | Some r => Some r
        | None => k s
        end
      else k s
  | EmptyString => k s
  end.

(** Backtracking matcher in continuation-passing style; [caps] collects the
    text of the groups closed so far, in order. *)
Fixpoint rmatch {R} (r : regex) (s : string) (caps : list string)
    (k : string -> list string -> option R) : option R :=
  match r with
  | Class p =>
      match s with
      | String c s' => if p c then k s' caps else None
      | EmptyString => None
      end
  | Star p => star_k p s (fun rest => k rest caps)
  | Seq r1 r2 => rmatch r1 s caps (fun rest caps' => rmatch r2 rest caps' k)
  | Group r1 =>
      rmatch r1 s caps (fun rest caps' =>
        k rest (caps' ++ [take_str (String.length s - String.length rest) s]))
  end.

(** [re.match(r, s)]: anchored at the start, free at the end.  The match
    object is the list of its groups. *)
Definition re_match (r : regex) (s : string) : option (list string) :=
  rmatch r s [] (fun _ caps => Some caps).

(** [m.group(n)] for [n >= 1] *)
Definition group (m : list string) (n : nat) : result string :=
  match m !! (n - 1)%nat with
  | Some g => Ok g
  | None => Raise IndexError
  end.

Definition chr (c : ascii) : regex := Class (Ascii.eqb c).

Fixpoint lit (s : string) : regex :=
  match s with
  | EmptyString => Star (fun _ => false)
  | String c EmptyString => chr c
  | String c s' => Seq (chr c) (lit s')
  end.

Definition d4 : regex :=
  Seq (Class is_digit) (Seq (Class is_digit) (Seq (Class is_digit) (Class is_digit))).

Definition ws : regex := Star is_space.

End Re.

(** ** cross_reference.py: the year-range parser *)

Import Text PyInt Re.

(** [r"(\d{4})\s*-\s*present"] *)
Definition present_re : regex :=
  Seq (Group d4) (Seq ws (Seq (chr "-") (Seq ws (lit "present")))).

(** [r"(\d{4})\s*-\s*(\d{4})"] *)
Definition range_re : regex :=
  Seq (Group d4) (Seq ws (Seq (chr "-") (Seq ws (Group d4)))).

(** [r"(\d{4})"] *)
Definition year_re : regex := Group d4.

Definition parse_year_range (years_str : string) (current_year : Z) : result (list Z) :=
  let years_str := lower (strip years_str) in
  if contains "present" years_str then
    match re_match present_re years_str with
    | Some m =>
        g ← group m 1;
        start_year ← int g;
        Ok (range start_year current_year)
    | None => Ok []
    end
  else
    match re_match range_re years_str with
    | Some m =>
        g1 ← group m 1;
        start_year ← int g1;
        g2 ← group m 2;
        end_year ← int g2;
        Ok (range start_year (end_year + 1))
    | None =>
        match re_match year_re years_str with
        | Some m =>
            g ← group m 1;
            y ← int g;
            Ok [y]
        | None => Ok []
        end
    end.

(** The default [current_year=None] is replaced by the clock's year [now]
    before anything else happens. *)
Definition parse_year_range_default (now : Z) (years_str : string)
    (current_year : option Z) : result (list Z) :=
  parse_year_range years_str (default now current_year).

(** [f"{year}-{year + 1}"] *)
Definition year_to_academic_year (year : Z) : string :=
  str year +:+ "-" +:+ str (year + 1).

(** ** difflib.SequenceMatcher, as [fuzzy_match] uses it

    [SequenceMatcher(None, a, b)] belongs to Python's standard library; the
    definitions follow CPython's [Lib/difflib.py] for [isjunk=None] and
    [autojunk=True].  Indices are natural numbers: the source never reads a
    negative index, and its only negative key, [j-1] for [j = 0] in
    [j2len.get(j-1, 0)], is absent from the dictionary. *)

Module Difflib.

Local Open Scope nat_scope.

(** A block [(i, j, k)]: [a[i:i+k] == b[j:j+k]]. *)
Definition Match : Type := nat * nat * nat.

Definition size (m : Match) : nat := m.2.

Definition total (l : list Match) : nat := foldr (fun m acc => size m + acc) 0 l.

Section Matcher.
Variables a b : list ascii.

(** [__chain_b]: the positions of every element of [b], in ascending
    order. *)
Fixpoint chain_from (i : nat) (l : list ascii) (b2j : gmap ascii (list nat))
    : gmap ascii (list nat) :=
  match l with
  | [] => b2j
  | elt :: l' => chain_from (S i) l' (<[elt := default [] (b2j !! elt) ++ [i]]> b2j)
  end.

(** With [isjunk=None] no element is junk. *)
Definition bjunk : gset ascii := ∅.

(** Elements of a [b] of 200 or more that occur more than [n // 100 + 1]
    times are "popular" and lose their entry. *)
Definition ntest : nat := length b / 100 + 1.

Definition b2j : gmap ascii (list nat) :=
  let b2j := chain_from 0 b ∅ in
  if 200 <=? length b
  then filter (fun kv => length kv.2 <= ntest) b2j
  else b2j.

Definition isbjunk (x : ascii) : bool := bool_decide (x ∈ bjunk).

(** [j2len.get(j-1, 0)] *)
Definition j2len_prev (j2len : gmap nat nat) (j : nat) : nat :=
  match j with
  | O => 0
  | S j' => default 0 (j2len !! j')
  end.

(** The loop [for j in b2j.get(a[i], nothing)] with its [continue] and
    [break]. *)
Fixpoint scan_row (i blo bhi : nat) (j2len : gmap nat nat) (js : list nat)
    (newj2len : gmap nat nat) (best : Match) : gmap nat nat * Match :=
  match js with
  | [] => (newj2len, best)
  | j :: js' =>
      if j <? blo then scan_row i blo bhi j2len js' newj2len best
      else if bhi <=? j then (newj2len, best)
      else
        let k := j2len_prev j2len j + 1 in
        let newj2len := <[j := k]> newj2len in
        let best := if size best <? k then (i + 1 - k, j + 1 - k, k) else best in
        scan_row i blo bhi j2len js' newj2len best
  end%nat.

(** [b2j.get(a[i], nothing)]; [i] is always a valid index of [a]. *)
Definition row_indices (i : nat) : list nat :=
  match a !! i with
  | Some x => default [] (b2j !! x)
  | None => []
  end.

(** The loop [for i in range(alo, ahi)]. *)
Definition scan_rows (alo ahi blo bhi : nat) : Match :=
  (foldl (fun st i => scan_row i blo bhi st.1 (row_indices i) ∅ st.2)
         (∅, (alo, blo, 0%nat)) (seq alo (ahi - alo))).2.

(** [a[i] == b[j]] at valid indices *)
Definition same_at (i j : nat) : bool :=
  match a !! i, b !! j with
  | Some x, Some y => bool_decide (x = y)
  | _, _ => false
  end.

Definition junk_at (j : nat) : bool :=
  match b !! j with
  | Some y => isbjunk y
  | None => false
  end.

(** The two loops that grow a block to the left; [junk] selects the
    second, which wants junk where the first wants none. *)
Fixpoint extend_left (junk : bool) (alo blo besti bestj bestsize : nat) : Match :=
  match besti, bestj with
  | S i', S j' =>
      if (alo <? besti) && (blo <? bestj) && eqb (junk_at j') junk && same_at i' j'
      then extend_left junk alo blo i' j' (S bestsize)
      else (besti, bestj, bestsize)
  | _, _ => (besti, bestj, bestsize)
  end%nat.

(** The two loops that grow a block to the right; they run at most
    [ahi - (besti + bestsize)] times. *)
Fixpoint extend_right (fuel : nat) (junk : bool) (ahi bhi besti bestj bestsize : nat)
    : Match :=
  match fuel with
  | O => (besti, bestj, bestsize)
  | S fuel' =>
      if (besti + bestsize <? ahi) && (bestj + bestsize <? bhi) &&
         eqb (junk_at (bestj + bestsize)) junk && same_at (besti + bestsize) (bestj + bestsize)
      then extend_right fuel' junk ahi bhi besti bestj (S bestsize)
      else (besti, bestj, bestsize)
  end%nat.

Definition find_longest_match (alo ahi blo bhi : nat) : Match :=
  let '(besti, bestj, bestsize) := scan_rows alo ahi blo bhi in
  let '(besti, bestj, bestsize) := extend_left false alo blo besti bestj bestsize in
  let '(besti, bestj, bestsize) :=
    extend_right (ahi - (besti + bestsize)) false ahi bhi besti bestj bestsize in
  let '(besti, bestj, bestsize) := extend_left true alo blo besti bestj bestsize in
  extend_right (ahi - (besti + bestsize)) true ahi bhi besti bestj bestsize.

(** The work list of [get_matching_blocks]; the head of [queue] is the
    end of the Python list, where [pop] and [append] work.  [None] stands
    for running out of [fuel]. *)
Fixpoint blocks_loop (fuel : nat) (queue : list (nat * nat * nat * nat))
    (matching_blocks : list Match) : option (list Match) :=
  match queue with
  | [] => Some matching_blocks
  | (alo, ahi, blo, bhi) :: queue =>
      match fuel with
      | O => None
      | S fuel' =>
          let '(i, j, k) := find_longest_match alo ahi blo bhi in
          if (k =? 0)%nat then blocks_loop fuel' queue matching_blocks
          else
            let queue := if (alo <? i) && (blo <? j)
                         then (alo, i, blo, j) :: queue else queue in
            let queue := if (i + k <? ahi) && (j + k <? bhi)
                         then (i + k, ahi, j + k, bhi) :: queue else queue in
            blocks_loop fuel' queue (matching_blocks ++ [(i, j, k)])
      end
  end%nat.

(** Every pass either drops a range or splits it around a block of at
    least one element, so [2 * len(a) + 1] passes are enough. *)
Definition raw_blocks : list Match :=
  default [] (blocks_loop (2 * length a + 1) [(0, length a, 0, length b)]%nat []).

(** The order of tuples, and [matching_blocks.sort()]. *)
Definition match_leb (x y : Match) : bool :=
  let '(i1, j1, k1) := x in
  let '(i2, j2, k2) := y in
  ((i1 <? i2) || ((i1 =? i2) && ((j1 <? j2) || ((j1 =? j2) && (k1 <=? k2)))))%nat.

Fixpoint insert_sorted (x : Match) (l : list Match) : list Match :=
  match l with
  | [] => [x]
  | y :: l' => if match_leb x y then x :: l else y :: insert_sorted x l'
  end.

Definition sort_blocks (l : list Match) : list Match := foldr insert_sorted [] l.

(** The loop that merges adjacent blocks. *)
Fixpoint collapse (i1 j1 k1 : nat) (l non_adjacent : list Match) : list Match :=
  match l with
  | [] => if (k1 =? 0)%nat then non_adjacent else non_adjacent ++ [(i1, j1, k1)]
  | (i2, j2, k2) :: l' =>
      if ((i1 + k1 =? i2) && (j1 + k1 =? j2))%nat
      then collapse i1 j1 (k1 + k2) l' non_adjacent
      else collapse i2 j2 k2 l'
             (if (k1 =? 0)%nat then non_adjacent else non_adjacent ++ [(i1, j1, k1)])
  end.

Definition get_matching_blocks : list Match :=
  collapse 0 0 0 (sort_blocks raw_blocks) [] ++ [(length a, length b, 0%nat)].

(** [sum(triple[-1] for triple in self.get_matching_blocks())] *)
Definition matches : nat := total get_matching_blocks.

(** [_calculate_ratio(matches, len(a) + len(b))].  The source computes
    [2.0 * matches / length] in floating point; the model keeps the exact
    quotient. *)
Definition ratio : Q :=
  let length := (length a + length b)%nat in
  if (length =? 0)%nat then 1%Q
  else (Z.of_nat (2 * matches) # Pos.of_nat length)%Q.

End Matcher.

(** [SequenceMatcher(None, s, t).ratio()] on strings *)
Definition similarity (s t : string) : Q :=
  ratio (String.list_ascii_of_string s) (String.list_ascii_of_string t).

End Difflib.

(** ** normalize.py *)

Definition clean_school_name (name : string) : string :=
  let name := strip (upper name) in
  collapse_ws name.

(** The alias table is iterated, so it is the list of its items in
    iteration order. *)
Definition build_reverse_alias_map (aliases : list (string * list string))
    : gmap string string :=
  foldl (fun reverse_map '(canonical, alias_list) =>
           if startswith canonical "_" then reverse_map
           else
             let canonical_upper := upper canonical in
             foldl (fun reverse_map alias => <[upper alias := canonical_upper]> reverse_map)
                   reverse_map alias_list)
        ∅ aliases.

Definition Qltb (x y : Q) : bool := negb (Qle_bool y x).

(** [candidates] is a set; the loop visits [elements candidates], an order
    that is fixed but as arbitrary as Python's.  Scores are exact rationals
    where the source has floats.  The final [if best_match:] also rejects an
    empty candidate name. *)
Definition fuzzy_match (name : string) (candidates : gset string) (threshold : Q)
    : option (string * Q) :=
  let name_upper := upper name in
  let '(best_match, best_score) :=
    foldl (fun '(best_match, best_score) candidate =>
             let score := Difflib.similarity name_upper (upper candidate) in
             if Qltb best_score score && Qle_bool threshold score
             then (Some candidate, score)
             else (best_match, best_score))
          (None, 0%Q) (elements candidates) in
  match best_match with
  | Some m => if bool_decide (m = "") then None else Some (m, best_score)
  | None => None
  end.

Inductive match_type := Exact | Alias | Fuzzy | NoMatch.

Definition match_type_str (t : match_type) : string :=
  match t with
  | Exact => "exact"
  | Alias => "alias"
  | Fuzzy => "fuzzy"
  | NoMatch => "none"
  end.

Record fuzzy_log_entry := {
  original : string;
  matched_to : string;
  score : Q
}.

(** The fields of a [SchoolNormalizer] instance. *)
Record SchoolNormalizer := {
  nmdp_db : gmap string (list string);
  aliases : list (string * list string);
  nmdp_schools : gset string;
  reverse_aliases : gmap string string;
  fuzzy_match_log : list fuzzy_log_entry
}.

(** [__init__], once both files are loaded. *)
Definition new_normalizer (db : gmap string (list string))
    (al : list (string * list string)) : SchoolNormalizer :=
  {| nmdp_db := db;
     aliases := al;
     nmdp_schools := set_map upper (dom db);
     reverse_aliases := build_reverse_alias_map al;
     fuzzy_match_log := [] |}.

(** [self.normalize(name, use_fuzzy, fuzzy_threshold)]: the returned pair
    and the instance after the call. *)
Definition normalize (self : SchoolNormalizer) (name : string) (use_fuzzy : bool)
    (fuzzy_threshold : Q) : (string * match_type) * SchoolNormalizer :=
  let cleaned := clean_school_name name in
  if bool_decide (cleaned ∈ nmdp_schools self) then ((cleaned, Exact), self)
  else
    match reverse_aliases self !! cleaned with
    | Some canonical => ((canonical, Alias), self)
    | None =>
        match (if use_fuzzy then fuzzy_match cleaned (nmdp_schools self) fuzzy_threshold
               else None) with
        | Some (m, sc) =>
            ((m, Fuzzy),
             {| nmdp_db := nmdp_db self;
                aliases := aliases self;
                nmdp_schools := nmdp_schools self;
                reverse_aliases := reverse_aliases self;
                fuzzy_match_log :=
                  fuzzy_match_log self ++
                  [{| original := name; matched_to := m; score := sc |}] |})
        | None => ((cleaned, NoMatch), self)
        end
    end.

Definition nfl_keywords : list string :=
  ["49ERS"; "BEARS"; "BENGALS"; "BILLS"; "BRONCOS"; "BROWNS";
   "BUCCANEERS"; "CARDINALS"; "CHARGERS"; "CHIEFS"; "COLTS";
   "COMMANDERS"; "COWBOYS"; "DOLPHINS"; "EAGLES"; "FALCONS";
   "GIANTS"; "JAGUARS"; "JETS"; "LIONS"; "PACKERS"; "PANTHERS";
   "PATRIOTS"; "RAIDERS"; "RAMS"; "RAVENS"; "SAINTS"; "SEAHAWKS";
   "STEELERS"; "TEXANS"; "TITANS"; "VIKINGS";
   "NFL"; "NATIONAL FOOTBALL LEAGUE"].

Definition nfl_cities : list string :=
  ["ARIZONA"; "ATLANTA"; "BALTIMORE"; "BUFFALO"; "CAROLINA";
   "CHICAGO"; "CINCINNATI"; "CLEVELAND"; "DALLAS"; "DENVER";
   "DETROIT"; "GREEN BAY"; "HOUSTON"; "INDIANAPOLIS"; "JACKSONVILLE";
   "KANSAS CITY"; "LAS VEGAS"; "LOS ANGELES"; "MIAMI"; "MINNESOTA";
   "NEW ENGLAND"; "NEW ORLEANS"; "NEW YORK"; "PHILADELPHIA";
   "PITTSBURGH"; "SAN FRANCISCO"; "SEATTLE"; "TAMPA BAY";
   "TENNESSEE"; "WASHINGTON"].

(** The first loop of [is_nfl_team]: a keyword in the name, guarded against
    college names. *)
Definition nfl_keyword_check (name_upper : string) : bool :=
  existsb (fun keyword =>
             contains keyword name_upper &&
             (negb (contains "UNIVERSITY" name_upper) &&
              negb (contains "COLLEGE" name_upper)))
          nfl_keywords.

(** The second loop: a city prefix and a keyword in what follows it. *)
Definition nfl_city_check (name_upper : string) : bool :=
  existsb (fun city =>
             startswith name_upper city &&
             let remainder := strip (drop_str (String.length city) name_upper) in
             existsb (fun keyword => contains keyword remainder) nfl_keywords)
          nfl_cities.

Definition is_nfl_team (name : string) : bool :=
  let name_upper := upper name in
  if nfl_keyword_check name_upper then true
  else if nfl_city_check name_upper then true
  else false.

(** ** cross_reference.py: the overlap engine *)

Record OverlapRecord := {
  school : string;
  school_original : string;
  academic_year : string;
  coach_position : string;
  overlap_match_type : match_type
}.

(** A career stint is a JSON object read with [stint.get(key, default)];
    the values under its keys are taken to be strings. *)
Definition stint_get (stint : gmap string string) (key dflt : string) : string :=
  default dflt (stint !! key).

(** The years of one stint that survive the window [year_range_start <= y <
    year_range_end]. *)
Definition coach_years_in_window (years_str : string)
    (year_range_start year_range_end : Z) : result (list Z) :=
  coach_years ← parse_year_range years_str year_range_end;
  Ok (filter (fun y => year_range_start <= y < year_range_end) coach_years).

(** One pass of the loop over [career_history]: the overlaps this stint adds
    and the normalizer after it. *)
Definition stint_overlaps (nmdp : gmap string (list string))
    (normalizer : SchoolNormalizer) (year_range_start year_range_end : Z)
    (stint : gmap string string) : result (list OverlapRecord * SchoolNormalizer) :=
  let school := stint_get stint "school" "" in
  let years_str := stint_get stint "years" "" in
  let position := stint_get stint "position" "Unknown" in
  if bool_decide (school = "") || bool_decide (years_str = "") then Ok ([], normalizer)
  else if is_nfl_team school then Ok ([], normalizer)
  else
    let '((normalized_school, mt), normalizer) :=
      normalize normalizer school false (85 # 100) in
    match nmdp !! normalized_school with
    | None => Ok ([], normalizer)
    | Some nmdp_years =>
        coach_years ← coach_years_in_window years_str year_range_start year_range_end;
        Ok (omap (M := list) (fun year =>
                    let academic_year := year_to_academic_year year in
                    if bool_decide (academic_year ∈ nmdp_years)
                    then Some {| school := normalized_school;
                                 school_original := school;
                                 academic_year := academic_year;
                                 coach_position := position;
                                 overlap_match_type := mt |}
                    else None)
                 coach_years,
            normalizer)
    end.

Fixpoint find_overlaps_loop (career_history : list (gmap string string))
    (nmdp : gmap string (list string)) (normalizer : SchoolNormalizer)
    (year_range_start year_range_end : Z) (overlaps : list OverlapRecord)
    : result (list OverlapRecord * SchoolNormalizer) :=
  match career_history with
  | [] => Ok (overlaps, normalizer)
  | stint :: rest =>
      '(found, normalizer) ←
        stint_overlaps nmdp normalizer year_range_start year_range_end stint;
      find_overlaps_loop rest nmdp normalizer year_range_start year_range_end
        (overlaps ++ found)
  end.

Definition find_overlaps_for_coach (career_history : list (gmap string string))
    (nmdp : gmap string (list string)) (normalizer : SchoolNormalizer)
    (year_range_start year_range_end : Z)
    : result (list OverlapRecord * SchoolNormalizer) :=
  find_overlaps_loop career_history nmdp normalizer year_range_start year_range_end [].

(** ** Shapes of text used in the statements *)

(** [four_digits s y]: [s] is four decimal digits spelling [y]. *)
Definition four_digits (s : string) (y : Z) : Prop :=
  exists a b c d,
    s = String a (String b (String c (String d ""))) /\
    is_digit a = true /\ is_digit b = true /\ is_digit c = true /\ is_digit d = true /\
    y = 1000 * digit_val a + 100 * digit_val b + 10 * digit_val c + digit_val d.

Definition s4 (a b c d : ascii) : string :=
  String a (String b (String c (String d ""))).

(** Where the text after a whitespace run does not start with whitespace,
    greedy [\s*] takes the whole run. *)
Definition starts_nonspace (t : string) : Prop :=
  match t with
  | String c _ => is_space c = false
  | EmptyString => True
  end.

(** Text that ends in a character other than a blank. *)
Definition ends_nonspace (t : string) : Prop := rstrip t = t /\ t <> "".

(** Patterns without a capturing group. *)
Fixpoint nogroup (r : regex) : bool :=
  match r with
  | Class _ | Star _ => true
  | Seq r1 r2 => nogroup r1 && nogroup r2
  | Group _ => false
  end.

(** ** Notions used in the statements about the alias index and the
    matcher *)

(** One pass of the outer loop of [build_reverse_alias_map]. *)
Definition alias_step (reverse_map : gmap string string) (entry : string * list string) :=
  if startswith entry.1 "_" then reverse_map
  else foldl (fun m alias => <[upper alias := upper entry.1]> m) reverse_map entry.2.

Module DifflibAux.
Import Difflib.
Local Open Scope nat_scope.

(** A candidate block that fits in [a[alo:ahi]] and [b[blo:bhi]]; the
    empty candidate sits at [(alo, blo)]. *)
Definition fits (alo ahi blo bhi : nat) (m : Match) : Prop :=
  let '(i, j, k) := m in
  alo <= i /\ blo <= j /\
  ((k = 0 /\ i = alo /\ j = blo) \/ (1 <= k /\ i + k <= ahi /\ j + k <= bhi)).

(** Run lengths stored for row [i]: no longer than the rows and columns
    scanned so far. *)
Definition short_runs (alo blo i : nat) (j2len : gmap nat nat) : Prop :=
  forall j v, j2len !! j = Some v -> v <= i - alo /\ v <= j + 1 - blo /\ blo <= j.

(** How many elements a pending range can still match, and how many passes
    of the work list it can still cost. *)
Definition cap (e : nat * nat * nat * nat) : nat :=
  let '(alo, ahi, blo, bhi) := e in Nat.min (ahi - alo) (bhi - blo).

Definition work (e : nat * nat * nat * nat) : nat :=
  let '(alo, ahi, blo, bhi) := e in 2 * (ahi - alo) + 1.

Definition sum_of (f : nat * nat * nat * nat -> nat) (queue : list (nat * nat * nat * nat)) :=
  foldr (fun e acc => f e + acc) 0 queue.

(** The positions of [x] in [l], counted from [i]. *)
Fixpoint positions (x : ascii) (i : nat) (l : list ascii) : list nat :=
  match l with
  | [] => []
  | y :: l' => if decide (y = x) then i :: positions x (S i) l' else positions x (S i) l'
  end.

(** Elements that keep their entry in [b2j]. *)
Definition kept (b : list ascii) (x : ascii) : bool :=
  negb (200 <=? length b) || (length (positions x 0 b) <=? ntest b).

(** [run s i j]: the length the scan of [s] against itself records at row [i], column [j]. *)
Fixpoint run (s : list ascii) (i j : nat) : nat :=
  if bool_decide (j ∈ row_indices s s i)
  then S (match i with
          | S i' => match j with S j' => run s i' j' | O => 0 end
          | O => 0
          end)
  else 0.

Definition prev_run (s : list ascii) (i j : nat) : nat :=
  match i with
  | S i' => match j with S j' => run s i' j' | O => 0 end
  | O => 0
  end.

End DifflibAux.

(** ** Notions used in the further statements about the overlap engine *)

(** The record [find_overlaps_for_coach] builds for season [year] of
    [stint]. *)
Definition overlap_record (normalizer : SchoolNormalizer) (stint : gmap string string)
    (year : Z) : OverlapRecord :=
  let res := (normalize normalizer (stint_get stint "school" "") false (85 # 100)).1 in
  {| school := res.1;
     school_original := stint_get stint "school" "";
     academic_year := year_to_academic_year year;
     coach_position := stint_get stint "position" "Unknown";
     overlap_match_type := res.2 |}.

(** [emitted ... stint r]: [stint] names a school and years, is not at an
    NFL team, its school normalizes to a key of the database, and [r] is
    its record for a season in the window that the database lists. *)
Definition emitted (nmdp : gmap string (list string)) (normalizer : SchoolNormalizer)
    (year_range_start year_range_end : Z) (stint : gmap string string)
    (r : OverlapRecord) : Prop :=
  exists years nmdp_years y,
    stint_get stint "school" "" <> "" /\
    stint_get stint "years" "" <> "" /\
    is_nfl_team (stint_get stint "school" "") = false /\
    nmdp !! (normalize normalizer (stint_get stint "school" "") false (85 # 100)).1.1 =
      Some nmdp_years /\
    parse_year_range (stint_get stint "years" "") year_range_end = Ok years /\
    y ∈ years /\
    year_range_start <= y < year_range_end /\
    year_to_academic_year y ∈ nmdp_years /\
    r = overlap_record normalizer stint y.

(** ** Notions used in the further statements about names *)

(** Text in which blanks occur only as single spaces between other
    characters; [after_space] tells whether a character other than a blank
    is due next. *)
Fixpoint tidy_from (after_space : bool) (s : string) : bool :=
  match s with
  | EmptyString => negb after_space
  | String c s' =>
      if is_space c then negb after_space && Ascii.eqb c " " && tidy_from true s'
      else tidy_from false s'
  end.

Definition tidy (s : string) : bool :=
  match s with
  | EmptyString => true
  | _ => tidy_from true s
  end.

(** ** normalize.py: the remaining entry points *)

(** One dictionary of the list [normalize_batch] returns. *)
Record BatchEntry := {
  batch_original : string;
  batch_normalized : string;
  batch_match_type : match_type;
  in_nmdp_db : bool
}.

(** [self.normalize_batch(names, use_fuzzy)]: the list of results and the
    instance after the call. *)
Fixpoint normalize_batch_loop (self : SchoolNormalizer) (names : list string)
    (use_fuzzy : bool) (results : list BatchEntry)
    : list BatchEntry * SchoolNormalizer :=
  match names with
  | [] => (results, self)
  | name :: names' =>
      let '((normalized, mt), self) := normalize self name use_fuzzy (85 # 100) in
      normalize_batch_loop self names' use_fuzzy
        (results ++ [{| batch_original := name;
                        batch_normalized := normalized;
                        batch_match_type := mt;
                        in_nmdp_db := bool_decide (normalized ∈ nmdp_schools self) |}])
  end.

Definition normalize_batch (self : SchoolNormalizer) (names : list string)
    (use_fuzzy : bool) : list BatchEntry * SchoolNormalizer :=
  normalize_batch_loop self names use_fuzzy [].

Definition get_fuzzy_match_log (self : SchoolNormalizer) : list fuzzy_log_entry :=
  fuzzy_match_log self.

Definition clear_fuzzy_match_log (self : SchoolNormalizer) : SchoolNormalizer :=
  {| nmdp_db := nmdp_db self;
     aliases := aliases self;
     nmdp_schools := nmdp_schools self;
     reverse_aliases := reverse_aliases self;
     fuzzy_match_log := [] |}.

(** The standalone [normalize_school_name(name, aliases, nmdp_schools)]. *)
Definition normalize_school_name (name : string) (aliases : list (string * list string))
    (nmdp_schools : gset string) : string :=
  let cleaned := clean_school_name name in
  if bool_decide (cleaned ∈ nmdp_schools) then cleaned
  else
    let reverse_aliases := build_reverse_alias_map aliases in
    match reverse_aliases !! cleaned with
    | Some canonical => canonical
    | None =>
        match fuzzy_match cleaned nmdp_schools (85 # 100) with
        | Some (m, _) => m
        | None => cleaned
        end
    end.

(** ** Notions used in the further statements about the normalizer *)

(** The entry [normalize_batch] builds from one answer of [normalize]. *)
Definition batch_entry (self : SchoolNormalizer) (name : string)
    (res : string * match_type) : BatchEntry :=
  {| batch_original := name;
     batch_normalized := res.1;
     batch_match_type := res.2;
     in_nmdp_db := bool_decide (res.1 ∈ nmdp_schools self) |}.

(** The log entry, if any, a call of [normalize] on [name] appends. *)
Definition logged (self : SchoolNormalizer) (use_fuzzy : bool) (name : string)
    : option fuzzy_log_entry :=
  let cleaned := clean_school_name name in
  if bool_decide (cleaned ∈ nmdp_schools self) then None
  else
    match reverse_aliases self !! cleaned with
    | Some _ => None
    | None =>
        if use_fuzzy then
          match fuzzy_match cleaned (nmdp_schools self) (85 # 100) with
          | Some (m, sc) => Some {| original := name; matched_to := m; score := sc |}
          | None => None
          end
        else None
    end.

(** ** cross_reference.py: the summary line *)

(** [sep.join(parts)] *)
Fixpoint join (sep : string) (parts : list string) : string :=
  match parts with
  | [] => ""
  | [p] => p
  | p :: rest => p +:+ sep +:+ join sep rest
  end.

(** [by_school] is a dictionary that is iterated afterwards, so it is the
    list of its items in insertion order; this is
    [if school not in by_school: by_school[school] = []] followed by
    [by_school[school].append(year)]. *)
Fixpoint add_year (school year : string) (by_school : list (string * list string))
    : list (string * list string) :=
  match by_school with
  | [] => [(school, [year])]
  | (s, years) :: rest =>
      if bool_decide (s = school) then (s, years ++ [year]) :: rest
      else (s, years) :: add_year school year rest
  end.

Definition group_by_school (overlaps : list OverlapRecord) : list (string * list string) :=
  foldl (fun by_school overlap => add_year (school overlap) (academic_year overlap) by_school)
        [] overlaps.

(** [sorted(years)] on strings: ascending in the order of their characters. *)
Definition sorted_years (years : list string) : list string := merge_sort String.le years.

(** [f"{school} ({years_str})"] *)
Definition summary_part (entry : string * list string) : string :=
  entry.1 +:+ " (" +:+ join ", " (sorted_years entry.2) +:+ ")".

Definition format_overlaps_summary (overlaps : list OverlapRecord) : string :=
  match overlaps with
  | [] => ""
  | _ => join "; " (summary_part <$> group_by_school overlaps)
  end.

(** ** cross_reference.py: one coach, and all coaches *)

(** [config] and [config["year_range"]] are JSON objects; a key that is
    absent is [None].  [config or {}] makes no configuration and the
    empty one the same. *)
Record YearRange := {
  range_start : option Z;
  range_end : option Z
}.

Record Config := {
  year_range : option YearRange
}.

(** [config.get("year_range", {}).get("start", 2020)] and the same for
    ["end"] and 2026. *)
Definition config_year_start (config : option Config) : Z :=
  default 2020 (c ← config; yr ← year_range c; range_start yr).

Definition config_year_end (config : option Config) : Z :=
  default 2026 (c ← config; yr ← year_range c; range_end yr).

(** The object of a coach file, read with [coach_data.get(key, default)]. *)
Record CoachData := {
  data_name : option string;
  data_current_position : option string;
  data_current_school : option string;
  data_research_status : option string;
  data_career_history : option (list (gmap string string))
}.

(** The dictionary [cross_reference_coach] returns. *)
Record CoachResult := {
  coach_name : string;
  current_position : string;
  current_school : string;
  research_status : string;
  career_history : list (gmap string string);
  has_overlap : bool;
  overlaps : list OverlapRecord;
  overlap_count : nat
}.

Definition cross_reference_coach (coach_data : CoachData)
    (nmdp : gmap string (list string)) (normalizer : SchoolNormalizer)
    (config : option Config) : result (CoachResult * SchoolNormalizer) :=
  let year_start := config_year_start config in
  let year_end := config_year_end config in
  let history := default [] (data_career_history coach_data) in
  '(found, normalizer) ←
    find_overlaps_for_coach history nmdp normalizer year_start year_end;
  Ok ({| coach_name := default "Unknown" (data_name coach_data);
         current_position := default "Unknown" (data_current_position coach_data);
         current_school := default "Unknown" (data_current_school coach_data);
         research_status := default "Unknown" (data_research_status coach_data);
         career_history := history;
         has_overlap := bool_decide (0 < length found)%nat;
         overlaps := found;
         overlap_count := length found |},
      normalizer).

(** [s.endswith(suffix)] *)
Definition endswith (s suffix : string) : bool :=
  (String.length suffix <=? String.length s)%nat &&
  String.eqb (drop_str (String.length s - String.length suffix)%nat s) suffix.

(** What [load_json_file] gives for a coach file: an array of coaches or
    one coach. *)
Inductive CoachFile :=
  | AllCoaches (coaches : list CoachData)
  | SingleCoach (coach : CoachData).

(** [{k.upper(): v for k, v in nmdp_db.items()}], over the items of the
    loaded database in their order. *)
Definition upper_keys (items : list (string * list string)) : gmap string (list string) :=
  foldl (fun m '(k, v) => <[upper k := v]> m) ∅ items.

(** The coaches of one file under [try]: an exception leaves the loop, the
    results appended before it stay. *)
Fixpoint cross_reference_list (coaches : list CoachData)
    (nmdp : gmap string (list string)) (normalizer : SchoolNormalizer)
    (config : option Config) (results : list CoachResult)
    : list CoachResult * SchoolNormalizer :=
  match coaches with
  | [] => (results, normalizer)
  | coach :: rest =>
      match cross_reference_coach coach nmdp normalizer config with
      | Ok (res, normalizer) =>
          cross_reference_list rest nmdp normalizer config (results ++ [res])
      | Raise _ => (results, normalizer)
      end
  end.

(** The loop over the file names; each comes with what loading it gives,
    [None] when [load_json_file] raises. *)
Fixpoint cross_reference_files (files : list (string * option CoachFile))
    (nmdp : gmap string (list string)) (normalizer : SchoolNormalizer)
    (config : option Config) (results : list CoachResult)
    : list CoachResult * SchoolNormalizer :=
  match files with
  | [] => (results, normalizer)
  | (filename, loaded) :: rest =>
      let '(results, normalizer) :=
        match loaded with
        | None => (results, normalizer)
        | Some (AllCoaches coaches) =>
            cross_reference_list coaches nmdp normalizer config results
        | Some (SingleCoach coach) =>
            cross_reference_list [coach] nmdp normalizer config results
        end in
      cross_reference_files rest nmdp normalizer config results
  end.

(** [cross_reference_all_coaches], once the database ([db_items], the items
    of the loaded object), the aliases and the configuration are loaded;
    [is_dir] is [os.path.isdir(coaches_dir)] and [listing] is
    [os.listdir(coaches_dir)].  The log lines are left out. *)
Definition cross_reference_all_coaches (is_dir : bool)
    (listing : list (string * option CoachFile))
    (db_items : list (string * list string)) (al : list (string * list string))
    (config : option Config) : list CoachResult :=
  let nmdp_db := upper_keys db_items in
  let normalizer := new_normalizer (list_to_map db_items) al in
  if is_dir then
    let files := filter (fun f => endswith f.1 ".json" = true) listing in
    (cross_reference_files files nmdp_db normalizer config []).1
  else [].

(** ** Notions used in the statements about all coaches *)

(** The coaches a listed file holds; none when it does not load. *)
Definition coaches_of (file : string * option CoachFile) : list CoachData :=
  match file.2 with
  | None => []
  | Some (AllCoaches coaches) => coaches
  | Some (SingleCoach coach) => [coach]
  end.

(** ** Sample data *)

(** A database with two schools, and an alias table that files the
    spelling of the first under the second. *)
Definition exact_alias_clash : SchoolNormalizer :=
  new_normalizer {[ "OREGON STATE" := ["2020-2021"]; "OREGON" := ["2021-2022"] ]}
                 [("OREGON", ["Oregon State"])].

(** * Properties *)

Example parse_2020_2022 : parse_year_range "2020-2022" 2026 = Ok [2020; 2021; 2022].
Proof. reflexivity. Qed.
Example parse_present : parse_year_range "2024 - Present" 2026 = Ok [2024; 2025].
Proof. reflexivity. Qed.
Example parse_single : parse_year_range "  2023 " 2026 = Ok [2023].
Proof. reflexivity. Qed.
Example parse_invalid : parse_year_range "twenty-twenty" 2026 = Ok [].
Proof. reflexivity. Qed.
Example academic_2020 : year_to_academic_year 2020 = "2020-2021".
Proof. reflexivity. Qed.
Example str_neg : str (-305) = "-305".
Proof. reflexivity. Qed.

(** ** Facts about characters and strings *)

Section CharFacts.

Ltac each_char c := destruct c as [[] [] [] [] [] [] [] []]; vm_compute; congruence.

Lemma digit_not_space c : is_digit c = true -> is_space c = false.
Proof. each_char c. Qed.

Lemma digit_lower c : is_digit c = true -> lower_char c = c.
Proof. each_char c. Qed.

Lemma digit_not_p c : is_digit c = true -> Ascii.eqb "p" c = false.
Proof. each_char c. Qed.

Lemma space_lower c : is_space c = true -> lower_char c = c.
Proof. each_char c. Qed.

Lemma lower_t_not_space c : lower_char c = "t"%char -> is_space c = false.
Proof. each_char c. Qed.

End CharFacts.

Lemma app_cons c s t : String c s +:+ t = String c (s +:+ t).
Proof. reflexivity. Qed.

Lemma app_empty t : "" +:+ t = t.
Proof. reflexivity. Qed.

Lemma app_assoc_str s t u : (s +:+ t) +:+ u = s +:+ (t +:+ u).
Proof. induction s as [|c s IH]; [done|]. by rewrite !app_cons, IH. Qed.

Lemma smap_app f s t : smap f (s +:+ t) = smap f s +:+ smap f t.
Proof. induction s as [|c s IH]; [done|]. rewrite !app_cons. simpl. by rewrite IH. Qed.

Lemma lower_spaces s : all_chars is_space s = true -> lower s = s.
Proof.
  unfold lower. induction s as [|c s IH]; simpl; [done|].
  intros [Hc Hs]%andb_prop. by rewrite space_lower, IH.
Qed.

Lemma lstrip_id c s : is_space c = false -> lstrip (String c s) = String c s.
Proof. intros H. simpl. by rewrite H. Qed.

Lemma startswith_app sub post : startswith (sub +:+ post) sub = true.
Proof.
  induction sub as [|c sub IH].
  - rewrite app_empty. by destruct post.
  - rewrite app_cons. simpl. by rewrite Ascii.eqb_refl.
Qed.

Lemma contains_startswith sub s : startswith s sub = true -> contains sub s = true.
Proof. intros H. destruct s; cbn [contains]; by rewrite H. Qed.

Lemma contains_app pre sub post : contains sub (pre +:+ sub +:+ post) = true.
Proof.
  induction pre as [|c pre IH].
  - rewrite app_empty. apply contains_startswith, startswith_app.
  - rewrite app_cons. simpl. rewrite IH. apply orb_true_r.
Qed.

(** ** Decimal text of four-digit years *)


Lemma digit_char_digit d : 0 <= d <= 9 -> is_digit (digit_char d) = true.
Proof.
  intros H.
  assert (d = 0 \/ d = 1 \/ d = 2 \/ d = 3 \/ d = 4 \/ d = 5 \/ d = 6 \/ d = 7 \/
          d = 8 \/ d = 9) as Hd by lia.
  repeat destruct Hd as [->|Hd]; try reflexivity. by subst.
Qed.

Lemma digit_val_char d : 0 <= d <= 9 -> digit_val (digit_char d) = d.
Proof.
  intros H.
  assert (d = 0 \/ d = 1 \/ d = 2 \/ d = 3 \/ d = 4 \/ d = 5 \/ d = 6 \/ d = 7 \/
          d = 8 \/ d = 9) as Hd by lia.
  repeat destruct Hd as [->|Hd]; try reflexivity. by subst.
Qed.

Local Ltac dlia := Z.div_mod_to_equations; lia.

Lemma str_four_digits y : 1000 <= y <= 9999 -> four_digits (str y) y.
Proof.
  intros Hy. unfold str.
  destruct (Z.ltb_spec y 0) as [?|_]; [lia|].
  assert (9 <= Z.log2 y) as Hlog.
  { change 9 with (Z.log2 1000). apply Z.log2_le_mono. lia. }
  destruct (Z.to_nat (Z.log2 y)) as [|[|[|f]]] eqn:Hf; try lia.
  cbn [str_nonneg].
  destruct (Z.ltb_spec y 10) as [?|_]; [lia|].
  destruct (Z.ltb_spec (y / 10) 10) as [?|_]; [dlia|].
  destruct (Z.ltb_spec (y / 10 / 10) 10) as [?|_]; [dlia|].
  assert (str_nonneg f (y / 10 / 10 / 10)
            (String (digit_char ((y / 10 / 10) mod 10))
               (String (digit_char ((y / 10) mod 10))
                  (String (digit_char (y mod 10)) ""))) =
          String (digit_char ((y / 10 / 10 / 10) mod 10))
            (String (digit_char ((y / 10 / 10) mod 10))
               (String (digit_char ((y / 10) mod 10))
                  (String (digit_char (y mod 10)) "")))) as ->.
  { destruct f; cbn [str_nonneg]; [done|].
    destruct (Z.ltb_spec (y / 10 / 10 / 10) 10) as [_|?]; [done|dlia]. }
  eexists _, _, _, _. split; [reflexivity|].
  rewrite !digit_char_digit, !digit_val_char by dlia.
  repeat split; dlia.
Qed.

Lemma int_four_digits s y : four_digits s y -> int s = Ok y.
Proof.
  intros (a & b & c & d & -> & Ha & Hb & Hc & Hd & ->).
  unfold int. cbn [int_digits]. rewrite Ha, Hb, Hc, Hd. f_equal. lia.
Qed.

(** ** The matcher on the year patterns *)


Lemma rmatch_group_d4 {R} a b c d rest caps (k : string -> list string -> option R) :
  is_digit a = true -> is_digit b = true -> is_digit c = true -> is_digit d = true ->
  rmatch (Group d4) (String a (String b (String c (String d rest)))) caps k =
  k rest (caps ++ [s4 a b c d]).
Proof.
  intros Ha Hb Hc Hd. cbn [rmatch d4]. rewrite Ha, Hb, Hc, Hd.
  replace (String.length (String a (String b (String c (String d rest)))) -
           String.length rest)%nat with 4%nat by (simpl; lia).
  reflexivity.
Qed.


Lemma star_k_spaces {R} sp t (k : string -> option R) r :
  all_chars is_space sp = true -> starts_nonspace t ->
  k t = Some r -> star_k is_space (sp +:+ t) k = Some r.
Proof.
  intros Hsp Ht Hr. induction sp as [|c sp IH].
  - rewrite app_empty. destruct t as [|c t]; [done|].
    simpl in *. by rewrite Ht.
  - simpl in Hsp. apply andb_prop in Hsp as [Hc Hsp].
    rewrite app_cons. cbn [star_k]. by rewrite Hc, IH.
Qed.

Lemma rmatch_seq {R} r1 r2 s caps (k : string -> list string -> option R) :
  rmatch (Seq r1 r2) s caps k =
  rmatch r1 s caps (fun rest caps' => rmatch r2 rest caps' k).
Proof. reflexivity. Qed.

Lemma rmatch_ws {R} s caps (k : string -> list string -> option R) :
  rmatch ws s caps k = star_k is_space s (fun rest => k rest caps).
Proof. reflexivity. Qed.

Lemma rmatch_chr {R} c s caps (k : string -> list string -> option R) :
  rmatch (chr c) (String c s) caps k = k s caps.
Proof. cbn [rmatch chr]. by rewrite Ascii.eqb_refl. Qed.

(** [(\d{4})\s*-\s*(\d{4})] on two digit groups around a dash, with any
    blanks around the dash and any text after the second group. *)
Lemma range_re_match a b c d sp1 sp2 e f g h tail :
  is_digit a = true -> is_digit b = true -> is_digit c = true -> is_digit d = true ->
  is_digit e = true -> is_digit f = true -> is_digit g = true -> is_digit h = true ->
  all_chars is_space sp1 = true -> all_chars is_space sp2 = true ->
  re_match range_re (s4 a b c d +:+ sp1 +:+ "-" +:+ sp2 +:+ s4 e f g h +:+ tail) =
  Some [s4 a b c d; s4 e f g h].
Proof.
  intros Ha Hb Hc Hd He Hf Hg Hh Hsp1 Hsp2.
  unfold re_match, range_re. unfold s4 at 1. rewrite !app_cons, app_empty.
  rewrite rmatch_seq, rmatch_group_d4 by done.
  rewrite rmatch_seq, rmatch_ws.
  apply (star_k_spaces sp1 (String "-" _)); [done|reflexivity|].
  rewrite rmatch_seq, rmatch_chr, rmatch_seq, rmatch_ws.
  apply (star_k_spaces sp2 (s4 e f g h +:+ tail)); [done|by apply digit_not_space|].
  unfold s4 at 1. rewrite !app_cons, app_empty.
  by rewrite rmatch_group_d4.
Qed.

Lemma four_digits_s4 s y :
  four_digits s y ->
  exists a b c d, s = s4 a b c d /\
    is_digit a = true /\ is_digit b = true /\ is_digit c = true /\ is_digit d = true.
Proof. intros (a & b & c & d & -> & ? & ? & ? & ? & _). by exists a, b, c, d. Qed.

Lemma parse_range_digits s1 s2 y1 y2 C :
  four_digits s1 y1 -> four_digits s2 y2 ->
  parse_year_range (s1 +:+ "-" +:+ s2) C = Ok (range y1 (y2 + 1)).
Proof.
  intros H1 H2.
  pose proof (int_four_digits _ _ H1) as Hi1.
  pose proof (int_four_digits _ _ H2) as Hi2.
  destruct (four_digits_s4 _ _ H1) as (a & b & c & d & -> & Ha & Hb & Hc & Hd).
  destruct (four_digits_s4 _ _ H2) as (e & f & g & h & -> & He & Hf & Hg & Hh).
  unfold parse_year_range.
  assert (lower (strip (s4 a b c d +:+ "-" +:+ s4 e f g h)) =
          s4 a b c d +:+ "-" +:+ s4 e f g h) as ->.
  { unfold strip, s4. rewrite !app_cons, !app_empty.
    rewrite lstrip_id by by apply digit_not_space.
    cbn [rstrip]. rewrite (digit_not_space h) by done.
    unfold lower. cbn [smap]. change (lower_char "-") with "-"%char.
    rewrite !digit_lower by done. reflexivity. }
  assert (contains "present" (s4 a b c d +:+ "-" +:+ s4 e f g h) = false) as ->.
  { unfold s4. rewrite !app_cons, !app_empty. cbn [contains startswith].
    rewrite (digit_not_p a), (digit_not_p b), (digit_not_p c), (digit_not_p d),
      (digit_not_p e), (digit_not_p f), (digit_not_p g), (digit_not_p h) by done.
    reflexivity. }
  pose proof (range_re_match a b c d "" "" e f g h "") as Hm.
  rewrite !app_empty in Hm.
  replace (s4 e f g h +:+ "") with (s4 e f g h) in Hm by done.
  rewrite Hm by done.
  cbn -[int range]. rewrite Hi1. cbn -[int range]. by rewrite Hi2.
Qed.

(** [(\\d{4})\\s*-\\s*present] on a digit group, a dash with any blanks around
    it, and the lower-case word. *)
Lemma present_re_match a b c d sp1 sp2 tail :
  is_digit a = true -> is_digit b = true -> is_digit c = true -> is_digit d = true ->
  all_chars is_space sp1 = true -> all_chars is_space sp2 = true ->
  re_match present_re (s4 a b c d +:+ sp1 +:+ "-" +:+ sp2 +:+ "present" +:+ tail) =
  Some [s4 a b c d].
Proof.
  intros Ha Hb Hc Hd Hsp1 Hsp2.
  unfold re_match, present_re. unfold s4 at 1. rewrite !app_cons, !app_empty.
  rewrite rmatch_seq, rmatch_group_d4 by done.
  rewrite rmatch_seq, rmatch_ws.
  apply (star_k_spaces sp1 (String "-" _)); [done|reflexivity|].
  rewrite rmatch_seq, rmatch_chr, rmatch_seq, rmatch_ws.
  apply (star_k_spaces sp2 (String "p" _)); [done|reflexivity|].
  cbn [lit]. by rewrite !rmatch_seq, !rmatch_chr.
Qed.


Lemma ends_nonspace_app s t : ends_nonspace t -> ends_nonspace (s +:+ t).
Proof.
  intros [Ht Hne]. induction s as [|a s [IH1 IH2]]; [done|].
  rewrite app_cons. split; [|done].
  cbn [rstrip]. rewrite IH1. by destruct (s +:+ t).
Qed.

Lemma ends_nonspace_last c : is_space c = false -> ends_nonspace (String c "").
Proof. intros H. split; [|done]. simpl. by rewrite H. Qed.

Lemma strip_id c s :
  is_space c = false -> ends_nonspace (String c s) -> strip (String c s) = String c s.
Proof. intros Hc [Hs _]. unfold strip. by rewrite lstrip_id. Qed.

Lemma lower_present_inv p :
  lower p = "present" ->
  exists q c, p = q +:+ String c "" /\ is_space c = false.
Proof.
  unfold lower. intros H.
  destruct p as [|p1 [|p2 [|p3 [|p4 [|p5 [|p6 [|p7 [|? ?]]]]]]]]; try discriminate.
  cbn [smap] in H. injection H as _ _ _ _ _ _ H7.
  exists (String p1 (String p2 (String p3 (String p4 (String p5 (String p6 "")))))), p7.
  split; [done|]. by apply lower_t_not_space.
Qed.

Lemma parse_present_digits s y sp1 sp2 p C :
  four_digits s y ->
  all_chars is_space sp1 = true -> all_chars is_space sp2 = true ->
  lower p = "present" ->
  parse_year_range (s +:+ sp1 +:+ "-" +:+ sp2 +:+ p) C = Ok (range y C).
Proof.
  intros Hs Hsp1 Hsp2 Hp.
  pose proof (int_four_digits _ _ Hs) as Hi.
  destruct (four_digits_s4 _ _ Hs) as (a & b & c & d & -> & Ha & Hb & Hc & Hd).
  unfold parse_year_range.
  assert (lower (strip (s4 a b c d +:+ sp1 +:+ "-" +:+ sp2 +:+ p)) =
          s4 a b c d +:+ sp1 +:+ "-" +:+ sp2 +:+ "present" +:+ "") as ->.
  { assert (strip (s4 a b c d +:+ sp1 +:+ "-" +:+ sp2 +:+ p) =
            s4 a b c d +:+ sp1 +:+ "-" +:+ sp2 +:+ p) as ->.
    { destruct (lower_present_inv p Hp) as (q & l & -> & Hl).
      unfold s4. rewrite !(app_cons a).
      apply strip_id; [by apply digit_not_space|].
      rewrite <- (app_cons a). do 5 apply ends_nonspace_app.
      by apply ends_nonspace_last. }
    pose proof (lower_spaces sp1 Hsp1) as Hl1.
    pose proof (lower_spaces sp2 Hsp2) as Hl2.
    unfold lower in *. rewrite !smap_app, Hp, Hl1, Hl2.
    unfold s4. cbn [smap].
    by rewrite (digit_lower a), (digit_lower b), (digit_lower c), (digit_lower d). }
  assert (contains "present"
            (s4 a b c d +:+ sp1 +:+ "-" +:+ sp2 +:+ "present" +:+ "") = true) as ->.
  { rewrite <- !app_assoc_str. rewrite app_assoc_str. apply contains_app. }
  rewrite present_re_match by done.
  cbn -[int range]. by rewrite Hi.
Qed.

(** ** What a successful match captures *)

Lemma star_k_inv {R} p s (k : string -> option R) v :
  star_k p s k = Some v -> exists rest, k rest = Some v.
Proof.
  induction s as [|c s IH]; cbn [star_k]; [eauto|].
  destruct (p c); [|eauto].
  destruct (star_k p s k) eqn:E; [|eauto].
  intros [= ->]. by apply IH.
Qed.

Lemma rmatch_nogroup_inv {R} r :
  nogroup r = true ->
  forall s caps (k : string -> list string -> option R) v,
    rmatch r s caps k = Some v -> exists rest, k rest caps = Some v.
Proof.
  induction r as [p|p|r1 IH1 r2 IH2|r IH]; cbn [nogroup rmatch]; intros Hng s caps k v H.
  - destruct s as [|c s]; [done|]. destruct (p c); [eauto|done].
  - by apply star_k_inv in H.
  - apply andb_prop in Hng as [Hn1 Hn2].
    apply IH1 in H as [rest H]; [|done]. by apply IH2 in H.
  - done.
Qed.

Lemma rmatch_group_d4_inv {R} s caps (k : string -> list string -> option R) v :
  rmatch (Group d4) s caps k = Some v ->
  exists a b c d rest,
    s = String a (String b (String c (String d rest))) /\
    is_digit a = true /\ is_digit b = true /\ is_digit c = true /\ is_digit d = true /\
    k rest (caps ++ [s4 a b c d]) = Some v.
Proof.
  intros H.
  destruct s as [|a [|b [|c [|d rest]]]];
    try (cbn [rmatch d4] in H; repeat case_match; discriminate).
  destruct (is_digit a) eqn:Ha; [|cbn [rmatch d4] in H; by rewrite Ha in H].
  destruct (is_digit b) eqn:Hb; [|cbn [rmatch d4] in H; by rewrite Ha, Hb in H].
  destruct (is_digit c) eqn:Hc; [|cbn [rmatch d4] in H; by rewrite Ha, Hb, Hc in H].
  destruct (is_digit d) eqn:Hd; [|cbn [rmatch d4] in H; by rewrite Ha, Hb, Hc, Hd in H].
  rewrite rmatch_group_d4 in H by done.
  by exists a, b, c, d, rest.
Qed.

Lemma int_s4 a b c d :
  is_digit a = true -> is_digit b = true -> is_digit c = true -> is_digit d = true ->
  exists y, int (s4 a b c d) = Ok y.
Proof.
  intros Ha Hb Hc Hd. unfold int, s4. cbn [int_digits].
  rewrite Ha, Hb, Hc, Hd. eauto.
Qed.

Lemma present_re_groups s m :
  re_match present_re s = Some m -> exists g y, m = [g] /\ int g = Ok y.
Proof.
  unfold re_match, present_re. rewrite rmatch_seq.
  intros (a & b & c & d & rest & -> & Ha & Hb & Hc & Hd & H)%rmatch_group_d4_inv.
  apply rmatch_nogroup_inv in H as [_ [= <-]]; [|done].
  destruct (int_s4 a b c d) as [y Hy]; eauto.
Qed.

Lemma year_re_groups s m :
  re_match year_re s = Some m -> exists g y, m = [g] /\ int g = Ok y.
Proof.
  unfold re_match, year_re.
  intros (a & b & c & d & rest & -> & Ha & Hb & Hc & Hd & [= <-])%rmatch_group_d4_inv.
  destruct (int_s4 a b c d) as [y Hy]; eauto.
Qed.

Lemma range_re_groups s m :
  re_match range_re s = Some m ->
  exists g1 y1 g2 y2, m = [g1; g2] /\ int g1 = Ok y1 /\ int g2 = Ok y2.
Proof.
  unfold re_match, range_re. rewrite rmatch_seq.
  intros (a & b & c & d & rest & -> & Ha & Hb & Hc & Hd & H)%rmatch_group_d4_inv.
  rewrite rmatch_seq in H. apply rmatch_nogroup_inv in H as [r1 H]; [|done].
  rewrite rmatch_seq in H. apply rmatch_nogroup_inv in H as [r2 H]; [|done].
  rewrite rmatch_seq in H. apply rmatch_nogroup_inv in H as [r3 H]; [|done].
  apply rmatch_group_d4_inv in H
    as (e & f & g & h & rest' & -> & He & Hf & Hg & Hh & [= <-]).
  destruct (int_s4 a b c d) as [y1 Hy1]; [done..|].
  destruct (int_s4 e f g h) as [y2 Hy2]; [done..|].
  by exists (s4 a b c d), y1, (s4 e f g h), y2.
Qed.

Lemma parse_year_range_returns years_str current_year :
  exists years, parse_year_range years_str current_year = Ok years.
Proof.
  unfold parse_year_range.
  destruct (contains _ _).
  - destruct (re_match present_re _) as [m|] eqn:Hm; [|eauto].
    apply present_re_groups in Hm as (g & y & -> & Hy).
    cbn -[int range]. rewrite Hy. cbn -[range]. eauto.
  - destruct (re_match range_re _) as [m|] eqn:Hm.
    + apply range_re_groups in Hm as (g1 & y1 & g2 & y2 & -> & Hy1 & Hy2).
      cbn -[int range]. rewrite Hy1. cbn -[int range]. rewrite Hy2.
      cbn -[range]. eauto.
    + destruct (re_match year_re _) as [m|] eqn:Hm'; [|eauto].
      apply year_re_groups in Hm' as (g & y & -> & Hy).
      cbn -[int]. rewrite Hy. cbn. eauto.
Qed.

(** C2.  For four-digit years [Y1 <= Y2] and any current year, the text
    "Y1-Y2" parses to the ascending list [Y1; Y1+1; ...; Y2], both ends
    included. *)
Theorem parse_year_range_inclusive (Y1 Y2 C : Z) :
  1000 <= Y1 -> Y1 <= Y2 -> Y2 <= 9999 ->
  parse_year_range (str Y1 +:+ "-" +:+ str Y2) C = Ok (seqZ Y1 (Y2 - Y1 + 1)).
Proof.
  intros H1 H12 H2.
  rewrite (parse_range_digits (str Y1) (str Y2) Y1 Y2) by (apply str_four_digits; lia).
  unfold range. do 2 f_equal. lia.
Qed.

Lemma parse_year_range_inclusive_witness :
  parse_year_range (str 2020 +:+ "-" +:+ str 2022) 2026 = Ok (seqZ 2020 (2022 - 2020 + 1)).
Proof. apply parse_year_range_inclusive; lia. Defined.

(** C10.  For four-digit years [Y1 > Y2] the text "Y1-Y2" parses to the
    empty list: nothing is raised and no descending list is built. *)
Theorem parse_year_range_reversed (Y1 Y2 C : Z) :
  1000 <= Y2 -> Y2 < Y1 -> Y1 <= 9999 ->
  parse_year_range (str Y1 +:+ "-" +:+ str Y2) C = Ok [].
Proof.
  intros H2 H21 H1.
  rewrite (parse_range_digits (str Y1) (str Y2) Y1 Y2) by (apply str_four_digits; lia).
  unfold range. f_equal. apply seqZ_nil. lia.
Qed.

Lemma parse_year_range_reversed_witness :
  parse_year_range (str 2022 +:+ "-" +:+ str 2020) 2026 = Ok [].
Proof. apply parse_year_range_reversed; lia. Defined.

(** C3.  For a four-digit year [Y], any current year [C], any blanks
    [sp1], [sp2] around the dash and any spelling [p] of the word "present"
    in upper or lower case, the text parses to [Y; ...; C-1] when [Y < C]
    and to the empty list when [Y >= C]. *)
Theorem parse_year_range_present (Y C : Z) (sp1 sp2 p : string) :
  1000 <= Y <= 9999 ->
  all_chars is_space sp1 = true -> all_chars is_space sp2 = true ->
  lower p = "present" ->
  (Y < C ->
   parse_year_range (str Y +:+ sp1 +:+ "-" +:+ sp2 +:+ p) C = Ok (seqZ Y (C - Y))) /\
  (Y >= C ->
   parse_year_range (str Y +:+ sp1 +:+ "-" +:+ sp2 +:+ p) C = Ok []).
Proof.
  intros HY Hsp1 Hsp2 Hp.
  rewrite (parse_present_digits (str Y) Y) by (done || by apply str_four_digits).
  unfold range. split; [done|].
  intros HC. f_equal. apply seqZ_nil. lia.
Qed.

Lemma parse_year_range_present_witness :
  parse_year_range (str 2024 +:+ " " +:+ "-" +:+ "  " +:+ "PreSent") 2026 = Ok (seqZ 2024 (2026 - 2024)) /\
  parse_year_range (str 2026 +:+ "" +:+ "-" +:+ "" +:+ "PRESENT") 2026 = Ok [].
Proof.
  split.
  - apply (parse_year_range_present 2024 2026 " " "  " "PreSent"); (lia || reflexivity).
  - apply (parse_year_range_present 2026 2026 "" "" "PRESENT"); (lia || reflexivity).
Defined.

(** C8.  [parse_year_range] returns a list on every text and every current
    year, it never raises; on a text that none of the three patterns
    matches, "invalid", the empty text and "twenty-twenty" among them, the
    list is empty. *)
Theorem parse_year_range_never_raises (years_str : string) (current_year : Z) :
  (exists years, parse_year_range years_str current_year = Ok years) /\
  (re_match present_re (lower (strip years_str)) = None ->
   re_match range_re (lower (strip years_str)) = None ->
   re_match year_re (lower (strip years_str)) = None ->
   parse_year_range years_str current_year = Ok []) /\
  parse_year_range "invalid" current_year = Ok [] /\
  parse_year_range "" current_year = Ok [] /\
  parse_year_range "twenty-twenty" current_year = Ok [].
Proof.
  split; [apply parse_year_range_returns|].
  split; [|done].
  intros Hp Hr Hy. unfold parse_year_range. rewrite Hp, Hr, Hy.
  by destruct (contains _ _).
Qed.

Lemma parse_year_range_never_raises_witness :
  parse_year_range "20x0-2022" 2026 = Ok [].
Proof.
  by apply (proj1 (proj2 (parse_year_range_never_raises "20x0-2022" 2026))).
Defined.

Example ratio_abcd_bcde : Difflib.similarity "abcd" "bcde" = (6 # 8)%Q.
Proof. vm_compute. reflexivity. Qed.
Example blocks_abxcd_abcd :
  Difflib.get_matching_blocks (String.list_ascii_of_string "abxcd")
    (String.list_ascii_of_string "abcd") = [(0, 0, 2); (3, 2, 2); (5, 4, 0)]%nat.
Proof. vm_compute. reflexivity. Qed.
Example flm_doc :
  Difflib.find_longest_match (String.list_ascii_of_string " abcd")
    (String.list_ascii_of_string "abcd abcd") 0 5 0 9 = (0, 4, 5)%nat.
Proof. vm_compute. reflexivity. Qed.
Example ratio_tide_diet : Difflib.similarity "tide" "diet" = (2 # 8)%Q.
Proof. vm_compute. reflexivity. Qed.
Example ratio_diet_tide : Difflib.similarity "diet" "tide" = (4 # 8)%Q.
Proof. vm_compute. reflexivity. Qed.
Example str_zero : str 0 = "0".
Proof. reflexivity. Qed.
Example str_large : str 1234567 = "1234567".
Proof. reflexivity. Qed.

Example nfl_cowboys : is_nfl_team "Dallas Cowboys" = true.
Proof. vm_compute. reflexivity. Qed.
Example nfl_broncos : is_nfl_team "Denver Broncos" = true.
Proof. vm_compute. reflexivity. Qed.
Example nfl_oregon : is_nfl_team "Oregon State" = false.
Proof. vm_compute. reflexivity. Qed.
Example clean_example : clean_school_name "  Oregon   State  " = "OREGON STATE".
Proof. vm_compute. reflexivity. Qed.

(** ** The NFL filter *)

Lemma startswith_app_l p t sub : startswith p sub = true -> startswith (p +:+ t) sub = true.
Proof.
  revert p. induction sub as [|c sub IH]; intros p; [by destruct p, t|].
  destruct p as [|a p]; [by destruct sub|].
  rewrite app_cons. cbn [startswith]. destruct (Ascii.eqb c a); [apply IH|done].
Qed.

Lemma contains_app_l sub p t : contains sub p = true -> contains sub (p +:+ t) = true.
Proof.
  induction p as [|a p IH].
  - cbn [contains]. rewrite orb_false_r, app_empty. intros H.
    apply contains_startswith. destruct sub; [by destruct t|by destruct t].
  - rewrite app_cons. cbn [contains].
    intros [H|H]%orb_prop.
    + apply (startswith_app_l _ t) in H. rewrite app_cons in H. by rewrite H.
    + rewrite (IH H). apply orb_true_r.
Qed.

Lemma rstrip_prefix s : exists t, s = rstrip s +:+ t.
Proof.
  induction s as [|c s [t IH]]; [by exists ""|].
  cbn [rstrip]. destruct (rstrip s) as [|r rs] eqn:Hr.
  - destruct (is_space c).
    + by exists (String c s).
    + exists s. by rewrite app_cons, app_empty.
  - exists t. rewrite app_cons. by rewrite <- IH.
Qed.

Lemma contains_rstrip sub s : contains sub (rstrip s) = true -> contains sub s = true.
Proof.
  intros H. destruct (rstrip_prefix s) as [t Ht]. rewrite Ht. by apply contains_app_l.
Qed.

Lemma contains_step sub c s : contains sub s = true -> contains sub (String c s) = true.
Proof. intros H. cbn [contains]. rewrite H. apply orb_true_r. Qed.

Lemma contains_lstrip sub s : contains sub (lstrip s) = true -> contains sub s = true.
Proof.
  induction s as [|c s IH]; [done|].
  cbn [lstrip]. destruct (is_space c); [|done].
  intros H%IH. by apply contains_step.
Qed.

Lemma contains_drop_str sub n : forall s,
  contains sub (drop_str n s) = true -> contains sub s = true.
Proof.
  induction n as [|n IH]; intros s; [by destruct s|].
  destruct s as [|c s]; [done|]. cbn [drop_str]. intros H%IH. by apply contains_step.
Qed.

(** The city loop answers [True] only on names the keyword loop has
    rejected for their "UNIVERSITY" or "COLLEGE": a keyword after the city
    is a keyword in the name. *)
Lemma nfl_city_check_overrides_guard name_upper :
  nfl_keyword_check name_upper = false -> nfl_city_check name_upper = true ->
  contains "UNIVERSITY" name_upper || contains "COLLEGE" name_upper = true.
Proof.
  unfold nfl_keyword_check, nfl_city_check. intros Hkw Hcity.
  apply existsb_exists in Hcity as (city & _ & [_ Hrem]%andb_prop).
  apply existsb_exists in Hrem as (keyword & Hin & Hk).
  apply contains_rstrip, contains_lstrip, contains_drop_str in Hk.
  destruct (contains "UNIVERSITY" name_upper), (contains "COLLEGE" name_upper); try done.
  assert (existsb (fun keyword => contains keyword name_upper && (negb false && negb false))
            nfl_keywords = true) as Habs; [|by rewrite Hkw in Habs].
  apply existsb_exists. exists keyword. by rewrite Hk.
Qed.

(** C1.  "Dallas Cowboys" is classified as an NFL team.  On "Dallas Baptist
    University Cowboys" the keyword loop is stopped by the college guard,
    but the city loop, which has no such guard, finds the prefix "DALLAS"
    and the keyword "COWBOYS" after it and answers [True]. *)
Theorem is_nfl_team_university_guard_bypassed :
  is_nfl_team "Dallas Cowboys" = true /\
  nfl_keyword_check (upper "Dallas Baptist University Cowboys") = false /\
  nfl_city_check (upper "Dallas Baptist University Cowboys") = true /\
  is_nfl_team "Dallas Baptist University Cowboys" = true.
Proof. vm_compute. done. Qed.

(** ** The normalizer *)

(** C5.  When the cleaned name is a canonical name and is also a key of the
    reverse alias index, filed under another canonical name, [normalize]
    answers the cleaned name with match type "exact"; the alias and fuzzy
    steps do not run, so the instance is left as it was. *)
Theorem normalize_exact_before_alias (self : SchoolNormalizer) (name other : string)
    (use_fuzzy : bool) (fuzzy_threshold : Q) :
  clean_school_name name ∈ nmdp_schools self ->
  reverse_aliases self !! clean_school_name name = Some other ->
  other <> clean_school_name name ->
  normalize self name use_fuzzy fuzzy_threshold = ((clean_school_name name, Exact), self) /\
  match_type_str (normalize self name use_fuzzy fuzzy_threshold).1.2 = "exact".
Proof.
  intros Hin _ _. unfold normalize.
  destruct (bool_decide_reflect (clean_school_name name ∈ nmdp_schools self)); done.
Qed.

Lemma normalize_exact_before_alias_witness :
  normalize exact_alias_clash " oregon  state " true (85 # 100) =
    (("OREGON STATE", Exact), exact_alias_clash) /\
  match_type_str (normalize exact_alias_clash " oregon  state " true (85 # 100)).1.2 = "exact".
Proof.
  apply (normalize_exact_before_alias exact_alias_clash " oregon  state " "OREGON").
  - apply (bool_decide_unpack _). vm_compute. exact I.
  - vm_compute. reflexivity.
  - vm_compute. discriminate.
Defined.

(** C9.  A call of [normalize] leaves the database, the alias table, the set
    of canonical names and the reverse alias index as they were, and the
    fuzzy-match log either as it was or longer by one entry; with
    [use_fuzzy=false], or whenever the answer is not "fuzzy", the whole
    instance is unchanged. *)
Theorem normalize_frame (self : SchoolNormalizer) (name : string) (use_fuzzy : bool)
    (fuzzy_threshold : Q) :
  let res := (normalize self name use_fuzzy fuzzy_threshold).1 in
  let self' := (normalize self name use_fuzzy fuzzy_threshold).2 in
  nmdp_db self' = nmdp_db self /\
  aliases self' = aliases self /\
  nmdp_schools self' = nmdp_schools self /\
  reverse_aliases self' = reverse_aliases self /\
  (fuzzy_match_log self' = fuzzy_match_log self \/
   exists entry, fuzzy_match_log self' = fuzzy_match_log self ++ [entry]) /\
  (use_fuzzy = false \/ res.2 <> Fuzzy -> self' = self).
Proof.
  unfold normalize. cbv zeta.
  destruct (bool_decide _); [cbn; by eauto 10|].
  destruct (reverse_aliases self !! _); [cbn; by eauto 10|].
  destruct use_fuzzy; [|cbn; by eauto 10].
  destruct (fuzzy_match _ _ _) as [[m sc]|]; [|cbn; by eauto 10].
  cbn. repeat split; eauto.
  intros [?|?]; done.
Qed.

Lemma normalize_frame_witness :
  (normalize exact_alias_clash "Oregon Stat" false (85 # 100)).2 = exact_alias_clash.
Proof.
  apply (normalize_frame exact_alias_clash "Oregon Stat" false (85 # 100)).
  left. reflexivity.
Defined.

(** ** The reverse alias index *)

Section ReverseAliases.


Lemma build_reverse_alias_map_foldl aliases :
  build_reverse_alias_map aliases = foldl alias_step ∅ aliases.
Proof.
  unfold build_reverse_alias_map. generalize (∅ : gmap string string).
  induction aliases as [|[c al] l IH]; intros m; [done|]. cbn [foldl]. by rewrite IH.
Qed.

Lemma aliases_keep (cu k : string) al (m : gmap string string) :
  m !! k = Some cu ->
  foldl (fun m alias => <[upper alias := cu]> m) m al !! k = Some cu.
Proof.
  revert m. induction al as [|x al IH]; intros m Hm; [done|].
  cbn [foldl]. apply IH.
  destruct (decide (upper x = k)) as [->|Hne].
  - apply lookup_insert_eq.
  - by rewrite lookup_insert_ne.
Qed.

Lemma aliases_written (cu a : string) al (m : gmap string string) :
  a ∈ al -> foldl (fun m alias => <[upper alias := cu]> m) m al !! upper a = Some cu.
Proof.
  revert m. induction al as [|x al IH]; intros m Hin; [by apply elem_of_nil in Hin|].
  cbn [foldl]. apply elem_of_cons in Hin as [->|Hin]; [|by apply IH].
  apply aliases_keep, lookup_insert_eq.
Qed.

Lemma aliases_untouched (cu k : string) al (m : gmap string string) :
  (forall a, a ∈ al -> upper a <> k) ->
  foldl (fun m alias => <[upper alias := cu]> m) m al !! k = m !! k.
Proof.
  revert m. induction al as [|x al IH]; intros m Hne; [done|].
  cbn [foldl]. rewrite IH.
  - apply lookup_insert_ne, Hne, list_elem_of_here.
  - intros a Ha. apply Hne. by apply list_elem_of_further.
Qed.

Lemma later_entries_untouched k post (m : gmap string string) :
  (forall c al a, (c, al) ∈ post -> startswith c "_" = false -> a ∈ al -> upper a <> k) ->
  foldl alias_step m post !! k = m !! k.
Proof.
  revert m. induction post as [|[c al] post IH]; intros m Hne; [done|].
  cbn [foldl]. rewrite IH.
  - unfold alias_step. cbn [fst snd]. destruct (startswith c "_") eqn:Hc; [done|].
    apply aliases_untouched. intros a Ha. by apply (Hne c al a); [apply list_elem_of_here|..].
  - intros c' al' a Hin. apply Hne. by apply list_elem_of_further.
Qed.

(** The last entry that is not skipped and lists a spelling of the alias
    decides where the alias points. *)
Lemma reverse_alias_last_entry pre c al post a :
  a ∈ al -> startswith c "_" = false ->
  (forall c' al' a', (c', al') ∈ post -> startswith c' "_" = false -> a' ∈ al' ->
                     upper a' <> upper a) ->
  build_reverse_alias_map (pre ++ (c, al) :: post) !! upper a = Some (upper c).
Proof.
  intros Ha Hc Hpost.
  rewrite build_reverse_alias_map_foldl, foldl_app. cbn [foldl].
  rewrite later_entries_untouched by done.
  unfold alias_step at 1. cbn [fst snd]. rewrite Hc. by apply aliases_written.
Qed.

Lemma reverse_alias_skips_underscore pre key value post :
  startswith key "_" = true ->
  build_reverse_alias_map (pre ++ (key, value) :: post) =
  build_reverse_alias_map (pre ++ post).
Proof.
  intros Hk. rewrite !build_reverse_alias_map_foldl, !foldl_app. cbn [foldl].
  unfold alias_step at 2. cbn [fst]. by rewrite Hk.
Qed.

End ReverseAliases.

(** C6.  When an alias is listed, up to letter case, under two canonical
    names, the reverse index sends its upper-case form to the canonical name
    of the later entry, in the upper case the index stores (a canonical name
    is upper-case to begin with); an entry whose key starts with "_" adds
    nothing to the index. *)
Theorem build_reverse_alias_map_last_write_wins :
  (forall pre c1 al1 mid c2 al2 post a1 a2,
     a1 ∈ al1 -> a2 ∈ al2 -> upper a1 = upper a2 -> c1 <> c2 ->
     startswith c2 "_" = false ->
     (forall c al a, (c, al) ∈ post -> startswith c "_" = false -> a ∈ al ->
                     upper a <> upper a1) ->
     build_reverse_alias_map (pre ++ (c1, al1) :: mid ++ (c2, al2) :: post) !! upper a1 =
     Some (upper c2)) /\
  (forall pre key value post,
     startswith key "_" = true ->
     build_reverse_alias_map (pre ++ (key, value) :: post) =
     build_reverse_alias_map (pre ++ post)).
Proof.
  split; [|apply reverse_alias_skips_underscore].
  intros pre c1 al1 mid c2 al2 post a1 a2 _ H2 Heq _ Hc2 Hpost.
  rewrite Heq in *.
  rewrite (app_comm_cons mid), app_assoc.
  by apply reverse_alias_last_entry.
Qed.

Lemma build_reverse_alias_map_last_write_wins_witness :
  build_reverse_alias_map
    ([] ++ ("OREGON STATE UNIVERSITY", ["OSU"; "Oregon State"]) ::
     [("_comment", ["osu"])] ++ ("OHIO STATE UNIVERSITY", ["osu"]) :: [])
    !! upper "OSU" = Some (upper "OHIO STATE UNIVERSITY").
Proof.
  apply (proj1 build_reverse_alias_map_last_write_wins _ _ _ _ _ _ _ "OSU" "osu").
  - apply list_elem_of_here.
  - apply list_elem_of_here.
  - reflexivity.
  - discriminate.
  - reflexivity.
  - intros c al a H. by apply elem_of_nil in H.
Defined.

(** ** The overlap engine *)

Lemma coach_years_in_window_spec years_str year_range_start year_range_end :
  exists years,
    parse_year_range years_str year_range_end = Ok years /\
    coach_years_in_window years_str year_range_start year_range_end =
      Ok (filter (fun y => year_range_start <= y < year_range_end) years).
Proof.
  destruct (parse_year_range_returns years_str year_range_end) as [years Hy].
  exists years. split; [done|]. unfold coach_years_in_window. by rewrite Hy.
Qed.


Example oregon_state_scenario :
  let normalizer :=
    new_normalizer {[ "OREGON STATE UNIVERSITY" := ["2020-2021"; "2021-2022"; "2022-2023"] ]}
                   [("OREGON STATE UNIVERSITY", ["Oregon State"])] in
  let stint : gmap string string :=
    {[ "school" := "Oregon State"; "years" := "2020-2022"; "position" := "DC" ]} in
  (fun r => (academic_year r, overlap_match_type r)) <$>
    (match find_overlaps_for_coach [stint] (nmdp_db normalizer) normalizer 2020 2026 with
     | Ok (overlaps, _) => overlaps
     | Raise _ => []
     end) = [("2020-2021", Alias); ("2021-2022", Alias); ("2022-2023", Alias)].
Proof. vm_compute. reflexivity. Qed.

(** ** The similarity ratio *)

Module DifflibFacts.
Import Difflib DifflibAux.
Local Open Scope nat_scope.

Lemma total_cons x l : total (x :: l) = size x + total l.
Proof. reflexivity. Qed.

Lemma total_app l1 l2 : total (l1 ++ l2) = total l1 + total l2.
Proof.
  induction l1 as [|x l1 IH]; [done|].
  rewrite <- app_comm_cons, !total_cons, IH. lia.
Qed.

Lemma total_insert_sorted x l : total (insert_sorted x l) = size x + total l.
Proof.
  induction l as [|y l IH]; [done|].
  cbn [insert_sorted]. destruct (match_leb x y); [done|].
  change (total (y :: insert_sorted x l)) with (size y + total (insert_sorted x l)).
  rewrite IH. change (total (y :: l)) with (size y + total l). lia.
Qed.

Lemma total_sort_blocks l : total (sort_blocks l) = total l.
Proof.
  induction l as [|x l IH]; [done|].
  cbn [sort_blocks foldr]. rewrite total_insert_sorted. fold (sort_blocks l).
  rewrite IH. done.
Qed.

Lemma total_collapse l : forall i1 j1 k1 acc,
  total (collapse i1 j1 k1 l acc) = total acc + k1 + total l.
Proof.
  induction l as [|[[i2 j2] k2] l IH]; intros i1 j1 k1 acc; cbn [collapse].
  - destruct (Nat.eqb_spec k1 0) as [->|_]; [cbn; lia|].
    rewrite total_app. cbn. lia.
  - change (total ((i2, j2, k2) :: l)) with (k2 + total l).
    destruct (_ && _); rewrite IH; [lia|].
    destruct (Nat.eqb_spec k1 0) as [->|_]; [lia|].
    rewrite total_app. cbn. lia.
Qed.

Section Bounds.
Variables a b : list ascii.
Variables alo ahi blo bhi : nat.


Lemma scan_row_fits i j2len js : forall newj2len best,
  alo <= i < ahi -> short_runs alo blo i j2len -> short_runs alo blo (S i) newj2len -> fits alo ahi blo bhi best ->
  short_runs alo blo (S i) (scan_row i blo bhi j2len js newj2len best).1 /\
  fits alo ahi blo bhi (scan_row i blo bhi j2len js newj2len best).2.
Proof.
  induction js as [|j js IH]; intros newj2len best Hi Hold Hnew Hbest; [done|].
  cbn [scan_row].
  destruct (Nat.ltb_spec j blo); [by apply IH|].
  destruct (Nat.leb_spec bhi j); [done|].
  assert (j2len_prev j2len j <= i - alo /\ j2len_prev j2len j <= j - blo) as [Hp1 Hp2].
  { unfold j2len_prev. destruct j as [|j']; [lia|].
    destruct (j2len !! j') as [v|] eqn:Hv; cbn; [|lia].
    apply Hold in Hv. lia. }
  apply IH; [done..| |].
  - intros j' v. destruct (decide (j = j')) as [<-|Hne].
    + rewrite lookup_insert_eq. intros [= <-]. lia.
    + rewrite lookup_insert_ne by done. apply Hnew.
  - destruct (Nat.ltb_spec (size best) (j2len_prev j2len j + 1)); [|done].
    cbn. lia.
Qed.

Lemma scan_rows_fold_fits len : forall start st,
  alo <= start -> start + len <= ahi ->
  short_runs alo blo start st.1 -> fits alo ahi blo bhi st.2 ->
  fits alo ahi blo bhi (foldl (fun st i => scan_row i blo bhi st.1 (row_indices a b i) ∅ st.2)
              st (seq start len)).2.
Proof.
  induction len as [|len IH]; intros start st Hs Hlen Hruns Hfit; [done|].
  cbn [seq foldl].
  destruct (scan_row_fits start st.1 (row_indices a b start) ∅ st.2) as [H1 H2];
    [lia|done| |done|].
  { intros j v. by rewrite lookup_empty. }
  apply IH; [lia|lia|done..].
Qed.

Lemma scan_rows_fits : fits alo ahi blo bhi (scan_rows a b alo ahi blo bhi).
Proof.
  unfold scan_rows. destruct (decide (alo <= ahi)) as [Hle|Hgt].
  - apply scan_rows_fold_fits; [lia|lia| |cbn; lia].
    intros j v. cbn. by rewrite lookup_empty.
  - replace (ahi - alo) with 0 by lia. cbn. lia.
Qed.

Lemma extend_left_fits junk besti : forall bestj bestsize,
  fits alo ahi blo bhi (besti, bestj, bestsize) ->
  fits alo ahi blo bhi (extend_left a b junk alo blo besti bestj bestsize).
Proof.
  induction besti as [|i' IH]; intros bestj bestsize Hfit; [done|].
  cbn [extend_left]. destruct bestj as [|j']; [done|].
  destruct (Nat.ltb_spec alo (S i')); [|done].
  destruct (Nat.ltb_spec blo (S j')); [|done].
  destruct (_ && _ && _ && _); [|done].
  apply IH. cbn in *. lia.
Qed.

Lemma extend_right_fits junk fuel : forall besti bestj bestsize,
  fits alo ahi blo bhi (besti, bestj, bestsize) ->
  fits alo ahi blo bhi (extend_right a b fuel junk ahi bhi besti bestj bestsize).
Proof.
  induction fuel as [|fuel IH]; intros besti bestj bestsize Hfit; [done|].
  cbn [extend_right].
  destruct (Nat.ltb_spec (besti + bestsize) ahi); [|done].
  destruct (Nat.ltb_spec (bestj + bestsize) bhi); [|done].
  destruct (_ && _ && _ && _); [|done].
  apply IH. cbn in *. lia.
Qed.

Lemma find_longest_match_fits : fits alo ahi blo bhi (find_longest_match a b alo ahi blo bhi).
Proof.
  unfold find_longest_match.
  pose proof scan_rows_fits as H0.
  destruct (scan_rows a b alo ahi blo bhi) as [[i0 j0] k0].
  pose proof (extend_left_fits false i0 j0 k0 H0) as H1.
  destruct (extend_left a b false alo blo i0 j0 k0) as [[i1 j1] k1].
  pose proof (extend_right_fits false (ahi - (i1 + k1)) i1 j1 k1 H1) as H2.
  destruct (extend_right a b _ false ahi bhi i1 j1 k1) as [[i2 j2] k2].
  pose proof (extend_left_fits true i2 j2 k2 H2) as H3.
  destruct (extend_left a b true alo blo i2 j2 k2) as [[i3 j3] k3].
  by apply extend_right_fits.
Qed.

End Bounds.

Section Blocks.
Variables a b : list ascii.


Lemma blocks_loop_total fuel : forall queue acc res,
  blocks_loop a b fuel queue acc = Some res ->
  total res <= total acc + sum_of cap queue.
Proof.
  induction fuel as [|fuel IH]; intros queue acc res;
    (destruct queue as [|[[[alo ahi] blo] bhi] queue]; cbn [blocks_loop];
     [intros [= <-]; cbn; lia|]); [done|].
  pose proof (find_longest_match_fits a b alo ahi blo bhi) as Hfit.
  destruct (find_longest_match a b alo ahi blo bhi) as [[i j] k].
  cbn [fits] in Hfit.
  destruct (Nat.eqb_spec k 0) as [->|Hk].
  - intros H%IH. cbn [sum_of foldr]. fold (sum_of cap queue). lia.
  - intros H%IH. rewrite total_app in H. cbn [sum_of foldr]. fold (sum_of cap queue).
    change (total [(i, j, k)]) with (k + 0) in H.
    destruct (Nat.ltb_spec alo i), (Nat.ltb_spec blo j),
      (Nat.ltb_spec (i + k) ahi), (Nat.ltb_spec (j + k) bhi);
      cbn [andb sum_of foldr cap] in H; fold (sum_of cap queue) in H; cbn [cap]; lia.
Qed.

Lemma blocks_loop_returns fuel : forall queue acc,
  sum_of work queue <= fuel -> exists res, blocks_loop a b fuel queue acc = Some res.
Proof.
  induction fuel as [|fuel IH]; intros queue acc;
    (destruct queue as [|[[[alo ahi] blo] bhi] queue]; cbn [blocks_loop];
     [by eauto|]); cbn [sum_of foldr work]; fold (sum_of work queue); [lia|].
  intros Hfuel.
  pose proof (find_longest_match_fits a b alo ahi blo bhi) as Hfit.
  destruct (find_longest_match a b alo ahi blo bhi) as [[i j] k].
  cbn [fits] in Hfit.
  destruct (Nat.eqb_spec k 0) as [->|Hk]; [apply IH; lia|].
  apply IH.
  destruct (Nat.ltb_spec alo i), (Nat.ltb_spec blo j),
    (Nat.ltb_spec (i + k) ahi), (Nat.ltb_spec (j + k) bhi);
    cbn [andb sum_of foldr work]; fold (sum_of work queue); lia.
Qed.

(** The work list of [get_matching_blocks] always runs dry. *)
Lemma raw_blocks_returns :
  exists res,
    blocks_loop a b (2 * length a + 1) [(0, length a, 0, length b)] [] = Some res /\
    raw_blocks a b = res.
Proof.
  destruct (blocks_loop_returns (2 * length a + 1) [(0, length a, 0, length b)] [])
    as [res Hres]; [cbn; lia|].
  exists res. split; [done|]. unfold raw_blocks. by rewrite Hres.
Qed.

Lemma matches_raw : matches a b = total (raw_blocks a b).
Proof.
  unfold matches, get_matching_blocks.
  rewrite total_app, total_collapse, total_sort_blocks. cbn. lia.
Qed.

Lemma matches_le : matches a b <= Nat.min (length a) (length b).
Proof.
  rewrite matches_raw.
  destruct raw_blocks_returns as (res & Hres%blocks_loop_total & ->).
  cbn in Hres. lia.
Qed.

Lemma ratio_range : (0 <= ratio a b)%Q /\ (ratio a b <= 1)%Q.
Proof.
  unfold ratio. cbv zeta.
  destruct (Nat.eqb_spec (length a + length b) 0) as [_|Hne]; [done|].
  pose proof matches_le as Hm.
  unfold Qle. cbn [Qnum Qden].
  rewrite <- (positive_nat_Z (Pos.of_nat _)), Nat2Pos.id by done.
  lia.
Qed.

End Blocks.

(** *** What [b2j] holds *)


Lemma chain_from_lookup x l : forall i (m : gmap ascii (list nat)),
  chain_from i l m !! x =
  match positions x i l with
  | [] => m !! x
  | ps => Some (default [] (m !! x) ++ ps)
  end.
Proof.
  induction l as [|y l IH]; intros i m; [done|].
  cbn [chain_from positions]. rewrite IH.
  destruct (decide (y = x)) as [->|Hne].
  - rewrite lookup_insert_eq. simpl.
    destruct (positions x (S i) l); [done|]. by rewrite <- app_assoc.
  - by rewrite lookup_insert_ne.
Qed.

Lemma b2j_lookup b x :
  default [] (b2j b !! x) = if kept b x then positions x 0 b else [].
Proof.
  unfold b2j, kept. cbv zeta.
  pose proof (chain_from_lookup x b 0 ∅) as Hraw.
  rewrite lookup_empty in Hraw. simpl in Hraw.
  destruct (Nat.leb_spec 200 (length b)) as [Hbig|Hsmall]; cbn [negb orb].
  - destruct (Nat.leb_spec (length (positions x 0 b)) (ntest b)) as [Hfew|Hmany].
    + destruct (positions x 0 b) as [|p ps] eqn:Hps.
      * destruct (filter _ _ !! x) as [js|] eqn:Hf; [|done].
        apply map_lookup_filter_Some in Hf as [Hf _]. by rewrite Hraw in Hf.
      * by rewrite (map_lookup_filter_Some_2 _ _ _ _ Hraw Hfew).
    + destruct (filter _ _ !! x) as [js|] eqn:Hf; [|done].
      apply map_lookup_filter_Some in Hf as [Hf Hlen]. cbn in Hlen.
      destruct (positions x 0 b); [by rewrite Hraw in Hf|].
      rewrite Hraw in Hf. injection Hf as <-. cbn in *. lia.
  - rewrite Hraw. by destruct (positions x 0 b).
Qed.

Lemma elem_of_positions x l : forall i j,
  j ∈ positions x i l <-> i <= j /\ l !! (j - i) = Some x.
Proof.
  induction l as [|y l IH]; intros i j; cbn [positions].
  - rewrite elem_of_nil. split; [done|]. by intros [_ ?].
  - assert (forall P : Prop,
              (j ∈ positions x (S i) l \/ P) <->
              ((S i <= j /\ l !! (j - S i) = Some x) \/ P)) as Hrec.
    { intros P. by rewrite IH. }
    destruct (decide (y = x)) as [->|Hne].
    + rewrite elem_of_cons, IH. split.
      * intros [->|[Hle Hl]].
        -- split; [lia|]. by replace (i - i) with 0 by lia.
        -- split; [lia|]. by replace (j - i) with (S (j - S i)) by lia.
      * intros [Hle Hl]. destruct (decide (j = i)) as [->|Hji]; [by left|right].
        split; [lia|]. by replace (j - i) with (S (j - S i)) in Hl by lia.
    + rewrite IH. split.
      * intros [Hle Hl]. split; [lia|]. by replace (j - i) with (S (j - S i)) by lia.
      * intros [Hle Hl]. destruct (decide (j = i)) as [->|Hji].
        -- replace (i - i) with 0 in Hl by lia. cbn in Hl. congruence.
        -- split; [lia|]. by replace (j - i) with (S (j - S i)) in Hl by lia.
Qed.

Lemma positions_lower_bound x l i j : j ∈ positions x i l -> i <= j.
Proof. by intros [? _]%elem_of_positions. Qed.

Lemma positions_sorted x l : forall i, StronglySorted lt (positions x i l).
Proof.
  induction l as [|y l IH]; intros i; cbn [positions]; [constructor|].
  destruct (decide (y = x)); [|done].
  constructor; [done|]. apply Forall_forall. intros j Hj.
  apply positions_lower_bound in Hj. lia.
Qed.

(** *** A sequence against itself *)

Section Identity.
Variable s : list ascii.

Lemma elem_of_row i j :
  j ∈ row_indices s s i <->
  exists x, s !! i = Some x /\ kept s x = true /\ s !! j = Some x.
Proof.
  unfold row_indices. destruct (s !! i) as [x|].
  - rewrite b2j_lookup. destruct (kept s x) eqn:Hk.
    + rewrite elem_of_positions. replace (j - 0) with j by lia. split.
      * intros [_ H]. by exists x.
      * intros (y & [= <-] & _ & H). split; [lia|done].
    + split; [by intros ?%elem_of_nil|]. intros (y & [= <-] & Hk' & _). congruence.
  - split; [by intros ?%elem_of_nil|]. by intros (y & ? & _).
Qed.

Lemma row_sym i j : j ∈ row_indices s s i -> i ∈ row_indices s s j.
Proof.
  rewrite !elem_of_row. intros (x & Hi & Hk & Hj). by exists x.
Qed.

Lemma row_refl i j : j ∈ row_indices s s i -> i ∈ row_indices s s i.
Proof.
  rewrite !elem_of_row. intros (x & Hi & Hk & Hj). by exists x.
Qed.

Lemma row_lt i j : j ∈ row_indices s s i -> j < length s.
Proof.
  rewrite elem_of_row. intros (x & _ & _ & Hj). by apply lookup_lt_Some in Hj.
Qed.

Lemma row_sorted i : StronglySorted lt (row_indices s s i).
Proof.
  unfold row_indices. destruct (s !! i) as [x|]; [|constructor].
  rewrite b2j_lookup. destruct (kept s x); [apply positions_sorted|constructor].
Qed.


Lemma run_unfold i j :
  run s i j = if bool_decide (j ∈ row_indices s s i) then S (prev_run s i j) else 0.
Proof. by destruct i. Qed.

Lemma run_sym i : forall j, run s i j = run s j i.
Proof.
  induction i as [|i IH]; intros j; rewrite !run_unfold.
  - rewrite (bool_decide_ext _ (0 ∈ row_indices s s j))
      by (split; apply row_sym).
    by destruct j.
  - rewrite (bool_decide_ext _ (S i ∈ row_indices s s j))
      by (split; apply row_sym).
    destruct j as [|j]; [done|]. cbn [prev_run]. by rewrite IH.
Qed.

Lemma run_diag i : forall j, run s i j <= run s i i.
Proof.
  induction i as [|i IH]; intros j; rewrite !run_unfold.
  - destruct (bool_decide_reflect (j ∈ row_indices s s 0)) as [Hj|]; [|lia].
    rewrite bool_decide_eq_true_2 by by eapply row_refl. cbn. lia.
  - destruct (bool_decide_reflect (j ∈ row_indices s s (S i))) as [Hj|]; [|lia].
    rewrite bool_decide_eq_true_2 by by eapply row_refl.
    destruct j as [|j]; cbn [prev_run]; [lia|]. specialize (IH j). lia.
Qed.

Lemma scan_row_diag i j2len js : forall newj2len d sz,
  (forall j, j2len_prev j2len j = prev_run s i j) ->
  StronglySorted lt js ->
  (forall j, j ∈ js -> j ∈ row_indices s s i) ->
  (forall j, default 0 (newj2len !! j) = if decide (j ∈ js) then 0 else run s i j) ->
  (forall i' j', i' < i -> run s i' j' <= sz) ->
  (forall j, j ∉ js -> run s i j <= sz) ->
  exists m' d' sz',
    scan_row i 0 (length s) j2len js newj2len (d, d, sz) = (m', (d', d', sz')) /\
    (forall j, default 0 (m' !! j) = run s i j) /\
    (forall i' j', i' < S i -> run s i' j' <= sz').
Proof.
  induction js as [|j js IH]; intros newj2len d sz Hprev Hsort Hrow Hnew Hb1 Hb2.
  - exists newj2len, d, sz. split; [done|]. split.
    + intros j. rewrite Hnew. destruct (decide (j ∈ [])) as [?%elem_of_nil|]; done.
    + intros i' j' Hi'. destruct (decide (i' = i)) as [->|].
      * apply Hb2. by intros ?%elem_of_nil.
      * apply Hb1. lia.
  - cbn [scan_row].
    assert (j ∈ row_indices s s i) as Hj by apply Hrow, list_elem_of_here.
    pose proof (row_lt _ _ Hj) as Hlt.
    apply StronglySorted_inv in Hsort as [Hsort Hall].
    assert (j ∉ js) as Hfresh.
    { intros Hin. eapply Forall_forall in Hall; [|done]. lia. }
    destruct (Nat.ltb_spec j 0); [lia|].
    destruct (Nat.leb_spec (length s) j); [lia|].
    assert (j2len_prev j2len j + 1 = run s i j) as ->.
    { rewrite Hprev, run_unfold, bool_decide_eq_true_2 by done. lia. }
    assert (forall j0, default 0 (<[j:=run s i j]> newj2len !! j0) =
                       if decide (j0 ∈ js) then 0 else run s i j0) as Hnew'.
    { intros j0. destruct (decide (j = j0)) as [<-|Hne].
      - rewrite lookup_insert_eq. by destruct (decide (j ∈ js)).
      - rewrite lookup_insert_ne, Hnew by done.
        destruct (decide (j0 ∈ j :: js)) as [[?|?]%elem_of_cons|Hout],
                 (decide (j0 ∈ js)) as [|Hout']; try done.
        exfalso. apply Hout. by apply list_elem_of_further. }
    cbn [size snd].
    destruct (Nat.ltb_spec sz (run s i j)) as [Hbig|Hsmall].
    + assert (j = i) as ->.
      { destruct (Nat.lt_trichotomy j i) as [Hji|[->|Hij]]; [|done|].
        - specialize (Hb1 j i Hji). rewrite run_sym in Hb1. lia.
        - assert (i ∉ j :: js) as Hout.
          { intros [->|Hin]%elem_of_cons; [lia|].
            eapply Forall_forall in Hall; [|done]. lia. }
          specialize (Hb2 i Hout). pose proof (run_diag i j). lia. }
      apply IH; [done|done| |done| |].
      * intros j0 Hj0. by apply Hrow, list_elem_of_further.
      * intros i' j' Hi'. specialize (Hb1 i' j' Hi'). lia.
      * intros j0 Hj0. destruct (decide (j0 = i)) as [->|Hne]; [done|].
        assert (j0 ∉ i :: js) as Hout by (intros [?|?]%elem_of_cons; done).
        specialize (Hb2 j0 Hout). lia.
    + apply IH; [done|done| |done|done|].
      * intros j0 Hj0. by apply Hrow, list_elem_of_further.
      * intros j0 Hj0. destruct (decide (j0 = j)) as [->|Hne]; [done|].
        apply Hb2. by intros [?|?]%elem_of_cons.
Qed.

Lemma scan_fold_diag len : forall start st d sz,
  st.2 = (d, d, sz) ->
  (forall j, j2len_prev st.1 j = prev_run s start j) ->
  (forall i' j', i' < start -> run s i' j' <= sz) ->
  exists d' sz',
    (foldl (fun st i => scan_row i 0 (length s) st.1 (row_indices s s i) ∅ st.2)
           st (seq start len)).2 = (d', d', sz').
Proof.
  induction len as [|len IH]; intros start [j2len best] d sz Hbest Hprev Hb1.
  - by exists d, sz.
  - cbn [seq foldl fst snd] in *. subst best.
    destruct (scan_row_diag start j2len (row_indices s s start) ∅ d sz)
      as (m' & d' & sz' & -> & Hm' & Hb1'); [done|apply row_sorted|done| |done| |].
    + intros j. rewrite lookup_empty. cbn.
      destruct (decide (j ∈ row_indices s s start)) as [|Hout]; [done|].
      by rewrite run_unfold, bool_decide_eq_false_2.
    + intros j Hout. rewrite run_unfold, bool_decide_eq_false_2 by done. lia.
    + apply (IH (S start) (m', (d', d', sz')) d' sz'); [done| |done].
      intros [|j]; [done|]. cbn [j2len_prev prev_run]. apply Hm'.
Qed.

Lemma scan_rows_diag :
  exists d sz, scan_rows s s 0 (length s) 0 (length s) = (d, d, sz).
Proof.
  unfold scan_rows. apply (scan_fold_diag _ 0 _ 0 0); [done| |lia].
  by intros [|j].
Qed.

Lemma same_at_diag i : i < length s -> same_at s s i i = true.
Proof.
  intros Hi. unfold same_at. destruct (lookup_lt_is_Some_2 s i Hi) as [x ->].
  by apply bool_decide_eq_true_2.
Qed.

Lemma junk_at_false (b : list ascii) j : junk_at b j = false.
Proof. unfold junk_at. destruct (b !! j); [|done]. by apply bool_decide_eq_false_2. Qed.

Lemma extend_left_diag d : forall sz,
  d <= length s -> extend_left s s false 0 0 d d sz = (0, 0, sz + d).
Proof.
  induction d as [|d IH]; intros sz Hd; cbn [extend_left]; [by rewrite Nat.add_0_r|].
  rewrite junk_at_false, same_at_diag by lia. cbn. rewrite IH by lia. f_equal. lia.
Qed.

Lemma extend_right_diag fuel : forall sz,
  fuel = length s - sz -> sz <= length s ->
  extend_right s s fuel false (length s) (length s) 0 0 sz = (0, 0, length s).
Proof.
  induction fuel as [|fuel IH]; intros sz Hfuel Hsz; cbn [extend_right].
  - f_equal. lia.
  - rewrite junk_at_false, same_at_diag by lia.
    destruct (Nat.ltb_spec (0 + sz) (length s)); [|lia].
    cbn. apply IH; lia.
Qed.

Lemma find_longest_match_self :
  find_longest_match s s 0 (length s) 0 (length s) = (0, 0, length s).
Proof.
  unfold find_longest_match.
  pose proof (scan_rows_fits s s 0 (length s) 0 (length s)) as Hfit.
  destruct scan_rows_diag as (d & sz & Hscan). rewrite Hscan in *. cbn [fits] in Hfit.
  rewrite extend_left_diag by lia.
  rewrite (extend_right_diag _ (sz + d)) by lia.
  cbn [extend_left]. by rewrite Nat.sub_diag.
Qed.

Lemma raw_blocks_self : s <> [] -> raw_blocks s s = [(0, 0, length s)].
Proof.
  intros Hs. unfold raw_blocks.
  replace (2 * length s + 1) with (S (2 * length s)) by lia.
  cbn [blocks_loop]. rewrite find_longest_match_self.
  assert (length s <> 0) as Hn by by destruct s.
  destruct (Nat.eqb_spec (length s) 0); [done|].
  rewrite Nat.ltb_irrefl. cbn [andb]. rewrite Nat.ltb_irrefl. cbn [andb].
  by destruct (2 * length s).
Qed.

Lemma ratio_self : (ratio s s == 1)%Q.
Proof.
  unfold ratio. cbv zeta.
  destruct (Nat.eqb_spec (length s + length s) 0) as [_|Hne]; [done|].
  rewrite matches_raw, raw_blocks_self by (intros ->; cbn in Hne; lia).
  unfold Qeq. cbn [Qnum Qden total foldr size snd].
  rewrite <- (positive_nat_Z (Pos.of_nat _)), Nat2Pos.id by done.
  lia.
Qed.

End Identity.

End DifflibFacts.

(** C7 as stated fails: the ratio is not symmetric.  On "TIDE" against
    "DIET" it is 1/4, on "DIET" against "TIDE" it is 1/2. *)
Lemma similarity_not_symmetric :
  ~ (Difflib.similarity "TIDE" "DIET" == Difflib.similarity "DIET" "TIDE")%Q.
Proof. intros H. vm_compute in H. discriminate. Qed.

(** C7, amended.  The similarity ratio of any two strings lies between 0
    and 1, and is 1 for a string against itself. *)
Theorem similarity_range_and_identity (s t : string) :
  (0 <= Difflib.similarity s t)%Q /\ (Difflib.similarity s t <= 1)%Q /\
  (Difflib.similarity s s == 1)%Q.
Proof.
  unfold Difflib.similarity.
  split; [apply DifflibFacts.ratio_range|].
  split; [apply DifflibFacts.ratio_range|].
  apply DifflibFacts.ratio_self.
Qed.

(** * Further properties of the year-range parser *)

Section MoreCharFacts.

Ltac each_char c := destruct c as [[] [] [] [] [] [] [] []]; vm_compute; congruence.

Lemma space_lower_char c : is_space (lower_char c) = is_space c.
Proof. each_char c. Qed.

Lemma lower_upper_char c : lower_char (upper_char c) = lower_char c.
Proof. each_char c. Qed.

Lemma digit_not_dash c : is_digit c = true -> Ascii.eqb "-" c = false.
Proof. each_char c. Qed.

End MoreCharFacts.

Lemma lstrip_spaces sp : all_chars is_space sp = true -> lstrip sp = "".
Proof.
  induction sp as [|c sp IH]; [done|]. cbn [all_chars lstrip].
  intros [Hc Hsp]%andb_prop. rewrite Hc. by apply IH.
Qed.

Lemma rstrip_spaces sp : all_chars is_space sp = true -> rstrip sp = "".
Proof.
  induction sp as [|c sp IH]; [done|]. cbn [all_chars rstrip].
  intros [Hc Hsp]%andb_prop. by rewrite IH, Hc.
Qed.

Lemma lstrip_spaces_app sp s : all_chars is_space sp = true -> lstrip (sp +:+ s) = lstrip s.
Proof.
  induction sp as [|c sp IH]; [done|]. cbn [all_chars].
  intros [Hc Hsp]%andb_prop. rewrite app_cons. cbn [lstrip]. rewrite Hc. by apply IH.
Qed.

Lemma rstrip_app_spaces s sp : all_chars is_space sp = true -> rstrip (s +:+ sp) = rstrip s.
Proof.
  intros Hsp. induction s as [|c s IH].
  - rewrite app_empty. by apply rstrip_spaces.
  - rewrite app_cons. cbn [rstrip]. by rewrite IH.
Qed.

Lemma strip_app_spaces s sp : all_chars is_space sp = true -> strip (s +:+ sp) = strip s.
Proof.
  intros Hsp. unfold strip. induction s as [|c s IH].
  - rewrite app_empty, lstrip_spaces by done. done.
  - rewrite app_cons. cbn [lstrip]. destruct (is_space c); [done|].
    rewrite <- app_cons. by apply rstrip_app_spaces.
Qed.

Lemma strip_spaces_around sp1 s sp2 :
  all_chars is_space sp1 = true -> all_chars is_space sp2 = true ->
  strip (sp1 +:+ s +:+ sp2) = strip s.
Proof.
  intros H1 H2. unfold strip. rewrite lstrip_spaces_app by done.
  by apply strip_app_spaces.
Qed.

Lemma lstrip_lower s : lstrip (lower s) = lower (lstrip s).
Proof.
  unfold lower. induction s as [|c s IH]; [done|].
  cbn [smap lstrip]. rewrite space_lower_char. by destruct (is_space c).
Qed.

Lemma rstrip_lower s : rstrip (lower s) = lower (rstrip s).
Proof.
  unfold lower. induction s as [|c s IH]; [done|].
  cbn [smap rstrip]. rewrite IH, space_lower_char.
  destruct (rstrip s); cbn [smap]; [by destruct (is_space c)|done].
Qed.

Lemma strip_lower s : strip (lower s) = lower (strip s).
Proof. unfold strip. by rewrite lstrip_lower, rstrip_lower. Qed.

Lemma lower_upper s : lower (upper s) = lower s.
Proof.
  unfold lower, upper. induction s as [|c s IH]; [done|].
  cbn [smap]. by rewrite lower_upper_char, IH.
Qed.

(** X1.  Blanks before and after the text do not change what
    [parse_year_range] returns. *)
Theorem parse_year_range_ignores_outer_blanks (sp1 s sp2 : string) (C : Z) :
  all_chars is_space sp1 = true -> all_chars is_space sp2 = true ->
  parse_year_range (sp1 +:+ s +:+ sp2) C = parse_year_range s C.
Proof.
  intros H1 H2. unfold parse_year_range. by rewrite strip_spaces_around.
Qed.

Lemma parse_year_range_ignores_outer_blanks_witness :
  parse_year_range ("  " +:+ "2020-2022" +:+ " ") 2026 = parse_year_range "2020-2022" 2026.
Proof. by apply parse_year_range_ignores_outer_blanks. Defined.

(** X2.  Two texts that differ only in letter case parse to the same
    years; in particular a text and its upper-case form do. *)
Theorem parse_year_range_ignores_case (s t : string) (C : Z) :
  (lower s = lower t -> parse_year_range s C = parse_year_range t C) /\
  parse_year_range (upper s) C = parse_year_range s C.
Proof.
  assert (forall u v, lower u = lower v ->
                      parse_year_range u C = parse_year_range v C) as H.
  { intros u v Huv. unfold parse_year_range. by rewrite <- !strip_lower, Huv. }
  split; [apply H|]. apply H, lower_upper.
Qed.

Lemma parse_year_range_ignores_case_witness :
  parse_year_range "2021-Present" 2026 = parse_year_range "2021-pReSeNT" 2026.
Proof. by apply (proj1 (parse_year_range_ignores_case "2021-Present" "2021-pReSeNT" 2026)). Defined.

Lemma digit_val_range c : is_digit c = true -> 0 <= digit_val c <= 9.
Proof. destruct c as [[] [] [] [] [] [] [] []]; vm_compute; intuition congruence. Qed.

Lemma four_digits_range g y : four_digits g y -> 0 <= y <= 9999.
Proof.
  intros (a & b & c & d & _ & Ha%digit_val_range & Hb%digit_val_range &
          Hc%digit_val_range & Hd%digit_val_range & ->). lia.
Qed.

Lemma s4_four_digits a b c d :
  is_digit a = true -> is_digit b = true -> is_digit c = true -> is_digit d = true ->
  exists y, four_digits (s4 a b c d) y.
Proof. intros. eexists. by exists a, b, c, d. Qed.

Lemma present_re_four_digits s m :
  re_match present_re s = Some m -> exists g y, m = [g] /\ four_digits g y.
Proof.
  unfold re_match, present_re. rewrite rmatch_seq.
  intros (a & b & c & d & rest & -> & Ha & Hb & Hc & Hd & H)%rmatch_group_d4_inv.
  apply rmatch_nogroup_inv in H as [_ [= <-]]; [|done].
  destruct (s4_four_digits a b c d) as [y Hy]; eauto.
Qed.

Lemma year_re_four_digits s m :
  re_match year_re s = Some m -> exists g y, m = [g] /\ four_digits g y.
Proof.
  unfold re_match, year_re.
  intros (a & b & c & d & rest & -> & Ha & Hb & Hc & Hd & [= <-])%rmatch_group_d4_inv.
  destruct (s4_four_digits a b c d) as [y Hy]; eauto.
Qed.

Lemma range_re_four_digits s m :
  re_match range_re s = Some m ->
  exists g1 y1 g2 y2, m = [g1; g2] /\ four_digits g1 y1 /\ four_digits g2 y2.
Proof.
  unfold re_match, range_re. rewrite rmatch_seq.
  intros (a & b & c & d & rest & -> & Ha & Hb & Hc & Hd & H)%rmatch_group_d4_inv.
  rewrite rmatch_seq in H. apply rmatch_nogroup_inv in H as [r1 H]; [|done].
  rewrite rmatch_seq in H. apply rmatch_nogroup_inv in H as [r2 H]; [|done].
  rewrite rmatch_seq in H. apply rmatch_nogroup_inv in H as [r3 H]; [|done].
  apply rmatch_group_d4_inv in H
    as (e & f & g & h & rest' & -> & He & Hf & Hg & Hh & [= <-]).
  destruct (s4_four_digits a b c d) as [y1 Hy1]; [done..|].
  destruct (s4_four_digits e f g h) as [y2 Hy2]; [done..|].
  by exists (s4 a b c d), y1, (s4 e f g h), y2.
Qed.

(** Whatever the text, the answer is a run of consecutive years that
    starts at a year between 0 and 9999 and stops at 9999 or before the
    current year. *)
Lemma parse_year_range_shape s C :
  exists a n, parse_year_range s C = Ok (seqZ a n) /\
              0 <= a /\ a + n <= Z.max 10000 C.
Proof.
  unfold parse_year_range.
  destruct (contains _ _).
  - destruct (re_match present_re _) as [m|] eqn:Hm.
    + apply present_re_four_digits in Hm as (g & y & -> & Hg).
      pose proof (four_digits_range _ _ Hg). apply int_four_digits in Hg.
      cbn -[int range]. rewrite Hg. cbn -[range]. exists y, (C - y).
      split; [done|]. lia.
    + exists 0, 0. split; [done|]. lia.
  - destruct (re_match range_re _) as [m|] eqn:Hm.
    + apply range_re_four_digits in Hm as (g1 & y1 & g2 & y2 & -> & Hg1 & Hg2).
      pose proof (four_digits_range _ _ Hg1). pose proof (four_digits_range _ _ Hg2).
      apply int_four_digits in Hg1, Hg2.
      cbn -[int range]. rewrite Hg1. cbn -[int range]. rewrite Hg2. cbn -[range].
      exists y1, (y2 + 1 - y1). split; [done|]. lia.
    + destruct (re_match year_re _) as [m|] eqn:Hm'.
      * apply year_re_four_digits in Hm' as (g & y & -> & Hg).
        pose proof (four_digits_range _ _ Hg). apply int_four_digits in Hg.
        cbn -[int]. rewrite Hg. cbn. exists y, 1. split; [done|]. lia.
      * exists 0, 0. split; [done|]. lia.
Qed.

Lemma seqZ_sorted n : forall a, StronglySorted Z.lt (seqZ a (Z.of_nat n)).
Proof.
  induction n as [|n IH]; intros a; [constructor|].
  rewrite seqZ_cons by lia.
  replace (Z.pred (Z.of_nat (S n))) with (Z.of_nat n) by lia.
  constructor; [apply IH|]. apply Forall_seqZ. lia.
Qed.

(** X3.  On every text and every current year the years returned are in
    strictly ascending order, so without repetition, and lie between 0 and
    the larger of 9999 and the year before the current one. *)
Theorem parse_year_range_ascending (s : string) (C : Z) :
  exists years,
    parse_year_range s C = Ok years /\
    StronglySorted Z.lt years /\
    forall y, y ∈ years -> 0 <= y <= Z.max 9999 (C - 1).
Proof.
  destruct (parse_year_range_shape s C) as (a & n & -> & Ha & Han).
  exists (seqZ a n). split; [done|]. split.
  - destruct (decide (0 <= n)) as [Hn|Hn].
    + rewrite <- (Z2Nat.id n) by done. apply seqZ_sorted.
    + rewrite seqZ_nil by lia. constructor.
  - intros y Hy%elem_of_seqZ. lia.
Qed.

(** X4.  The text of a single four-digit year parses to that year alone. *)
Theorem parse_year_range_single (Y C : Z) :
  1000 <= Y <= 9999 -> parse_year_range (str Y) C = Ok [Y].
Proof.
  intros HY. pose proof (str_four_digits Y HY) as Hs.
  pose proof (int_four_digits _ _ Hs) as Hi.
  destruct (four_digits_s4 _ _ Hs) as (a & b & c & d & Heq & Ha & Hb & Hc & Hd).
  rewrite Heq in *. clear Heq Hs.
  unfold parse_year_range.
  assert (lower (strip (s4 a b c d)) = s4 a b c d) as ->.
  { unfold strip, s4. rewrite lstrip_id by by apply digit_not_space.
    cbn [rstrip]. rewrite (digit_not_space d) by done.
    unfold lower. cbn [smap].
    by rewrite (digit_lower a), (digit_lower b), (digit_lower c), (digit_lower d). }
  assert (contains "present" (s4 a b c d) = false) as ->.
  { unfold s4. cbn [contains startswith].
    by rewrite (digit_not_p a), (digit_not_p b), (digit_not_p c), (digit_not_p d). }
  assert (re_match range_re (s4 a b c d) = None) as ->.
  { unfold re_match, range_re, s4. by rewrite rmatch_seq, rmatch_group_d4. }
  assert (re_match year_re (s4 a b c d) = Some [s4 a b c d]) as ->.
  { unfold re_match, year_re, s4. by rewrite rmatch_group_d4. }
  cbn -[int]. by rewrite Hi.
Qed.

Lemma parse_year_range_single_witness : parse_year_range (str 2023) 2026 = Ok [2023].
Proof. apply parse_year_range_single. lia. Defined.

Lemma rstrip_app_ends x : forall t,
  ends_nonspace x -> rstrip (x +:+ t) = x +:+ rstrip t.
Proof.
  induction x as [|a x IH]; intros t [Hx Hne]; [done|].
  rewrite !app_cons. cbn [rstrip] in *.
  destruct x as [|b x].
  - rewrite !app_empty. cbn [rstrip] in Hx.
    destruct (is_space a); [discriminate Hx|]. by destruct (rstrip t).
  - assert (ends_nonspace (String b x)) as Hbx.
    { split; [|done].
      destruct (rstrip (String b x)); [destruct (is_space a); discriminate Hx|congruence]. }
    rewrite (IH t Hbx). by rewrite app_cons.
Qed.

Lemma startswith_inv sub : forall s, startswith s sub = true -> exists post, s = sub +:+ post.
Proof.
  induction sub as [|c sub IH]; intros s; [by exists s|].
  destruct s as [|a s]; [done|]. cbn [startswith].
  destruct (Ascii.eqb_spec c a) as [->|]; [|done].
  intros [post ->]%IH. by exists post.
Qed.

Lemma contains_inv sub s :
  contains sub s = true -> exists pre post, s = pre +:+ sub +:+ post.
Proof.
  induction s as [|a s IH]; cbn [contains].
  - rewrite orb_false_r. intros [post ->]%startswith_inv. by exists "", post.
  - intros [[post ->]%startswith_inv|(pre & post & ->)%IH]%orb_prop.
    + by exists "", post.
    + by exists (String a pre), post.
Qed.

Lemma contains_rstrip_eq sub s :
  ends_nonspace sub -> contains sub (rstrip s) = contains sub s.
Proof.
  intros Hsub. destruct (contains sub s) eqn:Hs.
  - apply contains_inv in Hs as (pre & post & ->).
    assert (rstrip (pre +:+ sub +:+ post) = pre +:+ sub +:+ rstrip post) as ->.
    { rewrite <- app_assoc_str, rstrip_app_ends by by apply ends_nonspace_app.
      by rewrite app_assoc_str. }
    apply contains_app.
  - destruct (contains sub (rstrip s)) eqn:Hr; [|done].
    apply contains_rstrip in Hr. congruence.
Qed.

(** X5.  Text after a range of two four-digit years is ignored, unless the
    word "present" occurs in it, in any letter case: then the range is lost
    and no year is returned. *)
Theorem parse_year_range_trailing_text (Y1 Y2 C : Z) (tail : string) :
  1000 <= Y1 <= 9999 -> 1000 <= Y2 <= 9999 ->
  parse_year_range (str Y1 +:+ "-" +:+ str Y2 +:+ tail) C =
    if contains "present" (lower tail) then Ok [] else Ok (range Y1 (Y2 + 1)).
Proof.
  intros HY1 HY2.
  pose proof (str_four_digits Y1 HY1) as Hs1. pose proof (str_four_digits Y2 HY2) as Hs2.
  pose proof (int_four_digits _ _ Hs1) as Hi1. pose proof (int_four_digits _ _ Hs2) as Hi2.
  destruct (four_digits_s4 _ _ Hs1) as (a & b & c & d & Heq1 & Ha & Hb & Hc & Hd).
  destruct (four_digits_s4 _ _ Hs2) as (e & f & g & h & Heq2 & He & Hf & Hg & Hh).
  rewrite Heq1, Heq2 in *. clear Heq1 Heq2 Hs1 Hs2.
  unfold parse_year_range.
  assert (lower (strip (s4 a b c d +:+ "-" +:+ s4 e f g h +:+ tail)) =
          s4 a b c d +:+ "" +:+ "-" +:+ "" +:+ s4 e f g h +:+ lower (rstrip tail)) as ->.
  { rewrite !app_empty.
    assert (strip (s4 a b c d +:+ "-" +:+ s4 e f g h +:+ tail) =
            s4 a b c d +:+ "-" +:+ s4 e f g h +:+ rstrip tail) as ->.
    { unfold strip. unfold s4 at 1. rewrite !(app_cons a).
      rewrite lstrip_id by by apply digit_not_space.
      rewrite <- !(app_cons a). fold (s4 a b c d).
      rewrite <- !app_assoc_str, rstrip_app_ends; [done|].
      rewrite app_assoc_str. do 2 apply ends_nonspace_app.
      unfold s4. rewrite <- (app_empty (String h "")), <- !app_cons.
      apply ends_nonspace_app, ends_nonspace_last. by apply digit_not_space. }
    unfold lower. rewrite !smap_app. unfold s4. cbn [smap].
    change (lower_char "-") with "-"%char.
    by rewrite (digit_lower a), (digit_lower b), (digit_lower c), (digit_lower d),
      (digit_lower e), (digit_lower f), (digit_lower g), (digit_lower h). }
  assert (contains "present"
            (s4 a b c d +:+ "" +:+ "-" +:+ "" +:+ s4 e f g h +:+ lower (rstrip tail)) =
          contains "present" (lower tail)) as ->.
  { rewrite <- rstrip_lower, <- (contains_rstrip_eq "present" (lower tail))
      by (split; [reflexivity|done]).
    unfold s4. rewrite !app_cons, !app_empty. cbn [contains startswith].
    rewrite (digit_not_p a), (digit_not_p b), (digit_not_p c), (digit_not_p d),
      (digit_not_p e), (digit_not_p f), (digit_not_p g), (digit_not_p h) by done.
    change (Ascii.eqb "p" "-") with false. cbn [orb].
    by destruct (rstrip (lower tail)). }
  destruct (contains "present" (lower tail)).
  - assert (re_match present_re
              (s4 a b c d +:+ "" +:+ "-" +:+ "" +:+ s4 e f g h +:+ lower (rstrip tail)) =
            None) as ->; [|done].
    unfold re_match, present_re, s4. rewrite !app_cons, !app_empty.
    rewrite rmatch_seq, rmatch_group_d4 by done.
    rewrite rmatch_seq, rmatch_ws. cbn [star_k]. change (is_space "-") with false.
    cbv iota. rewrite rmatch_seq, rmatch_chr, rmatch_seq, rmatch_ws.
    cbn [star_k]. rewrite (digit_not_space e) by done.
    cbn [lit]. rewrite rmatch_seq. cbn [rmatch chr]. by rewrite (digit_not_p e).
  - rewrite range_re_match by done.
    cbn -[int range]. rewrite Hi1. cbn -[int range]. by rewrite Hi2.
Qed.

Lemma parse_year_range_trailing_text_witness :
  parse_year_range (str 2018 +:+ "-" +:+ str 2020 +:+ " (Present at bowl)") 2026 = Ok [] /\
  parse_year_range (str 2018 +:+ "-" +:+ str 2020 +:+ " (interim)") 2026 =
    Ok (range 2018 (2020 + 1)).
Proof.
  split.
  - by rewrite parse_year_range_trailing_text by lia.
  - by rewrite parse_year_range_trailing_text by lia.
Defined.

Lemma academic_year_parses (y C : Z) :
  1000 <= y <= 9998 ->
  parse_year_range (year_to_academic_year y) C = Ok [y; y + 1].
Proof.
  intros Hy. unfold year_to_academic_year.
  rewrite (parse_range_digits (str y) (str (y + 1)) y (y + 1))
    by (apply str_four_digits; lia).
  unfold range. replace (y + 1 + 1 - y) with 2 by lia.
  rewrite seqZ_cons by lia. rewrite seqZ_cons by lia. rewrite seqZ_nil by lia.
  repeat (f_equal; try lia).
Qed.

(** X6.  The academic year of a four-digit season reads back, through
    [parse_year_range], as that season and the next. *)
Theorem year_to_academic_year_round_trip (y C : Z) :
  1000 <= y <= 9998 ->
  parse_year_range (year_to_academic_year y) C = Ok [y; y + 1].
Proof. apply academic_year_parses. Qed.

Lemma year_to_academic_year_round_trip_witness :
  parse_year_range (year_to_academic_year 2021) 2026 = Ok [2021; 2021 + 1].
Proof. apply year_to_academic_year_round_trip. lia. Defined.

(** X7.  Two different four-digit seasons never share an academic-year
    key. *)
Theorem year_to_academic_year_injective (y1 y2 : Z) :
  1000 <= y1 <= 9998 -> 1000 <= y2 <= 9998 ->
  year_to_academic_year y1 = year_to_academic_year y2 -> y1 = y2.
Proof.
  intros H1 H2 Heq.
  pose proof (academic_year_parses y1 0 H1) as R1.
  pose proof (academic_year_parses y2 0 H2) as R2.
  rewrite Heq in R1. congruence.
Qed.

Lemma year_to_academic_year_injective_witness :
  year_to_academic_year 2021 = year_to_academic_year (2020 + 1) /\ 2021 = 2020 + 1.
Proof.
  split; [reflexivity|].
  apply (year_to_academic_year_injective 2021 (2020 + 1)); [lia|lia|reflexivity].
Defined.

(** * Further properties of the overlap engine *)

Lemma normalize_without_fuzzy_keeps_self self name threshold :
  (normalize self name false threshold).2 = self.
Proof.
  unfold normalize. cbv zeta.
  destruct (bool_decide _); [done|]. by destruct (reverse_aliases self !! _).
Qed.

Lemma window_length l ys ye :
  NoDup l -> Z.of_nat (length (filter (fun y => ys <= y < ye) l)) <= Z.max 0 (ye - ys).
Proof.
  intros Hnd.
  assert (Nat.le (length (filter (fun y => ys <= y < ye) l))
                 (length (seqZ ys (ye - ys)))).
  { apply submseteq_length, NoDup_submseteq.
    - by apply NoDup_filter.
    - intros y [Hy _]%list_elem_of_filter. apply elem_of_seqZ. lia. }
  rewrite length_seqZ in *. lia.
Qed.

Lemma omap_length_le {A B} (f : A -> option B) (l : list A) :
  (length (omap f l) <= length l)%nat.
Proof. induction l as [|x l IH]; cbn; [done|]. destruct (f x); cbn; lia. Qed.

Lemma stint_overlaps_char nmdp normalizer ys ye stint :
  exists found,
    stint_overlaps nmdp normalizer ys ye stint = Ok (found, normalizer) /\
    (forall r, r ∈ found <-> emitted nmdp normalizer ys ye stint r) /\
    Z.of_nat (length found) <= Z.max 0 (ye - ys).
Proof.
  unfold stint_overlaps, emitted, overlap_record. cbv zeta.
  pose proof (normalize_without_fuzzy_keeps_self normalizer
                (stint_get stint "school" "") (85 # 100)) as Hself.
  destruct (bool_decide_reflect (stint_get stint "school" "" = "")) as [Hs|Hs]; cbn [orb].
  { exists []. split; [done|]. split; [|cbn; lia].
    intros r. split; [by intros ?%elem_of_nil|]. by intros (?&?&?&?&_). }
  destruct (bool_decide_reflect (stint_get stint "years" "" = "")) as [Hy|Hy].
  { exists []. split; [done|]. split; [|cbn; lia].
    intros r. split; [by intros ?%elem_of_nil|]. by intros (?&?&?&_&?&_). }
  destruct (is_nfl_team _) eqn:Hnfl.
  { exists []. split; [done|]. split; [|cbn; lia].
    intros r. split; [by intros ?%elem_of_nil|]. by intros (?&?&?&_&_&?&_). }
  destruct (normalize _ _ _ _) as [[normalized_school mt] normalizer'].
  cbn [fst snd] in *. subst normalizer'.
  destruct (nmdp !! normalized_school) as [nmdp_years|] eqn:Hdb.
  2:{ exists []. split; [done|]. split; [|cbn; lia].
      intros r. split; [by intros ?%elem_of_nil|]. by intros (?&?&?&_&_&_&?&_). }
  destruct (coach_years_in_window_spec (stint_get stint "years" "") ys ye)
    as (years & Hparse & ->).
  eexists. split; [reflexivity|]. split.
  - intros r. rewrite list_elem_of_omap. split.
    + intros (y & [Hwin Hin]%list_elem_of_filter & Hr).
      destruct (bool_decide_reflect (year_to_academic_year y ∈ nmdp_years)) as [Hay|];
        [|done].
      injection Hr as <-. by exists years, nmdp_years, y.
    + intros (years' & nmdp_years' & y & _ & _ & _ & [= <-] & Hparse' & Hin & Hwin & Hay & ->).
      rewrite Hparse in Hparse'. injection Hparse' as <-.
      exists y. split; [by apply list_elem_of_filter|].
      by rewrite bool_decide_eq_true_2.
  - etrans; [apply inj_le, omap_length_le|].
    destruct (parse_year_range_shape (stint_get stint "years" "") ye)
      as (a & n & Hshape & _).
    rewrite Hparse in Hshape. injection Hshape as ->.
    apply window_length, NoDup_seqZ.
Qed.

Lemma find_overlaps_loop_char nmdp ys ye normalizer career_history :
  exists found,
    (forall overlaps,
       find_overlaps_loop career_history nmdp normalizer ys ye overlaps =
       Ok (overlaps ++ found, normalizer)) /\
    (forall r, r ∈ found <->
               exists stint, stint ∈ career_history /\ emitted nmdp normalizer ys ye stint r) /\
    Z.of_nat (length found) <= Z.of_nat (length career_history) * Z.max 0 (ye - ys).
Proof.
  induction career_history as [|stint rest (found2 & Hrun & Hchar & Hlen)].
  - exists []. split; [intros overlaps; by rewrite app_nil_r|]. split; [|cbn; lia].
    intros r. split; [by intros ?%elem_of_nil|]. by intros (? & ?%elem_of_nil & _).
  - destruct (stint_overlaps_char nmdp normalizer ys ye stint)
      as (found1 & Hstint & Hchar1 & Hlen1).
    exists (found1 ++ found2). split; [|split].
    + intros overlaps. cbn [find_overlaps_loop]. rewrite Hstint. cbn.
      by rewrite Hrun, app_assoc.
    + intros r. rewrite elem_of_app, Hchar1, Hchar. split.
      * intros [H|(st & Hst & H)].
        -- exists stint. split; [apply list_elem_of_here|done].
        -- exists st. split; [by apply list_elem_of_further|done].
      * intros (st & [->|Hst]%elem_of_cons & H); [by left|right; by exists st].
    + rewrite length_app. cbn [length]. nia.
Qed.

Lemma find_overlaps_loop_app nmdp ys ye normalizer h1 h2 o1 o2 :
  (forall acc, find_overlaps_loop h1 nmdp normalizer ys ye acc = Ok (acc ++ o1, normalizer)) ->
  (forall acc, find_overlaps_loop h2 nmdp normalizer ys ye acc = Ok (acc ++ o2, normalizer)) ->
  forall acc,
    find_overlaps_loop (h1 ++ h2) nmdp normalizer ys ye acc =
    Ok (acc ++ o1 ++ o2, normalizer).
Proof.
  revert o1. induction h1 as [|stint h1 IH]; intros o1 H1 H2 acc.
  - specialize (H1 []). cbn in H1. injection H1 as <-. cbn. apply H2.
  - destruct (stint_overlaps_char nmdp normalizer ys ye stint) as (f & Hf & _).
    destruct (find_overlaps_loop_char nmdp ys ye normalizer h1) as (o1' & H1' & _).
    pose proof (H1 []) as H10. cbn [find_overlaps_loop app] in H10.
    rewrite Hf in H10. cbn in H10. rewrite H1' in H10. injection H10 as <-.
    cbn [find_overlaps_loop app]. rewrite Hf. cbn.
    rewrite (IH o1' H1' H2). by rewrite !app_assoc.
Qed.

(** C4.  In [find_overlaps_for_coach] the years of a stint are its years
    string parsed with [year_range_end] as the "present" year and filtered
    to [year_range_start <= y < year_range_end].  On career histories whose
    stints hold strings, the call returns a list in which every record is
    the record of some stint for a year [y] of its parsed years with
    [year_range_start <= y < year_range_end]; and, the other way round,
    for every stint that names a school and years, is not at an NFL team
    and whose school normalizes to a key of the database, the record of
    every such [y] whose academic year the database lists under that key is
    in the list. *)
Theorem find_overlaps_for_coach_window (career_history : list (gmap string string))
    (nmdp : gmap string (list string)) (normalizer : SchoolNormalizer)
    (year_range_start year_range_end : Z) :
  exists overlaps,
    find_overlaps_for_coach career_history nmdp normalizer year_range_start
      year_range_end = Ok (overlaps, normalizer) /\
    (forall r, r ∈ overlaps ->
       exists stint years y,
         stint ∈ career_history /\
         parse_year_range (stint_get stint "years" "") year_range_end = Ok years /\
         y ∈ years /\
         year_range_start <= y < year_range_end /\
         r = overlap_record normalizer stint y /\
         academic_year r = year_to_academic_year y) /\
    (forall stint years nmdp_years y,
       stint ∈ career_history ->
       stint_get stint "school" "" <> "" ->
       stint_get stint "years" "" <> "" ->
       is_nfl_team (stint_get stint "school" "") = false ->
       nmdp !! (normalize normalizer (stint_get stint "school" "") false (85 # 100)).1.1 =
         Some nmdp_years ->
       parse_year_range (stint_get stint "years" "") year_range_end = Ok years ->
       y ∈ years ->
       year_range_start <= y < year_range_end ->
       year_to_academic_year y ∈ nmdp_years ->
       overlap_record normalizer stint y ∈ overlaps).
Proof.
  destruct (find_overlaps_loop_char nmdp year_range_start year_range_end normalizer
              career_history) as (found & Hrun & Hchar & _).
  exists found. split; [apply Hrun|]. split.
  - intros r (stint & Hst & Hem)%Hchar.
    destruct Hem as (years & nmdp_years & y & _ & _ & _ & _ & Hparse & Hy & Hwin & _ & ->).
    by exists stint, years, y.
  - intros stint years nmdp_years y Hst Hschool Hyears Hnfl Hdb Hparse Hy Hwin Hlisted.
    apply Hchar. exists stint. split; [done|].
    by exists years, nmdp_years, y.
Qed.

Lemma find_overlaps_for_coach_window_witness :
  exists overlaps,
    find_overlaps_for_coach
      [<["school" := "Oregon State"]> (<["years" := "2019-present"]> ∅)]
      (<["OREGON STATE" := ["2019-2020"; "2025-2026"; "2026-2027"]]> ∅)
      (new_normalizer (<["Oregon State" := ["2025-2026"]]> ∅) []) 2020 2026 =
      Ok (overlaps, new_normalizer (<["Oregon State" := ["2025-2026"]]> ∅) []) /\
    overlap_record (new_normalizer (<["Oregon State" := ["2025-2026"]]> ∅) [])
      (<["school" := "Oregon State"]> (<["years" := "2019-present"]> ∅)) 2025 ∈ overlaps.
Proof.
  destruct (find_overlaps_for_coach_window
              [<["school" := "Oregon State"]> (<["years" := "2019-present"]> ∅)]
              (<["OREGON STATE" := ["2019-2020"; "2025-2026"; "2026-2027"]]> ∅)
              (new_normalizer (<["Oregon State" := ["2025-2026"]]> ∅) []) 2020 2026)
    as (overlaps & Hrun & _ & Hcomplete).
  exists overlaps. split; [exact Hrun|].
  apply (Hcomplete _ [2019; 2020; 2021; 2022; 2023; 2024; 2025]
           ["2019-2020"; "2025-2026"; "2026-2027"] 2025).
  - apply list_elem_of_here.
  - discriminate.
  - discriminate.
  - reflexivity.
  - reflexivity.
  - reflexivity.
  - do 6 apply list_elem_of_further. apply list_elem_of_here.
  - lia.
  - apply list_elem_of_further, list_elem_of_here.
Defined.

(** X8.  On career histories whose stints hold strings (a stint whose
    school or years is not a string can make the source raise, and is not
    a stint of this development), [find_overlaps_for_coach] hands the
    normalizer back as it got it, and the overlaps of a career history cut
    in two are the overlaps of the first part followed by those of the
    second. *)
Theorem find_overlaps_for_coach_app (h1 h2 : list (gmap string string))
    (nmdp : gmap string (list string)) (normalizer : SchoolNormalizer) (ys ye : Z) :
  exists o1 o2,
    find_overlaps_for_coach h1 nmdp normalizer ys ye = Ok (o1, normalizer) /\
    find_overlaps_for_coach h2 nmdp normalizer ys ye = Ok (o2, normalizer) /\
    find_overlaps_for_coach (h1 ++ h2) nmdp normalizer ys ye = Ok (o1 ++ o2, normalizer).
Proof.
  unfold find_overlaps_for_coach.
  destruct (find_overlaps_loop_char nmdp ys ye normalizer h1) as (o1 & H1 & _).
  destruct (find_overlaps_loop_char nmdp ys ye normalizer h2) as (o2 & H2 & _).
  exists o1, o2. rewrite H1, H2. do 2 (split; [done|]).
  by rewrite (find_overlaps_loop_app nmdp ys ye normalizer h1 h2 o1 o2).
Qed.

(** X9.  A record is among the overlaps of a career history exactly when
    some stint of it names a school and years, is not at an NFL team, has a
    school that normalizes (without fuzzy matching) to a key of the
    database, and the record is that stint's record for one of its seasons
    inside the window whose academic year the database lists for that
    key. *)
Theorem find_overlaps_for_coach_exact (career_history : list (gmap string string))
    (nmdp : gmap string (list string)) (normalizer : SchoolNormalizer) (ys ye : Z) :
  exists overlaps,
    find_overlaps_for_coach career_history nmdp normalizer ys ye =
      Ok (overlaps, normalizer) /\
    forall r, r ∈ overlaps <->
              exists stint, stint ∈ career_history /\
                            emitted nmdp normalizer ys ye stint r.
Proof.
  destruct (find_overlaps_loop_char nmdp ys ye normalizer career_history)
    as (found & Hrun & Hchar & _).
  exists found. split; [apply Hrun|done].
Qed.

(** X10.  A career history yields at most as many overlaps as it has stints
    times the width of the window, and none when the window is empty. *)
Theorem find_overlaps_for_coach_count (career_history : list (gmap string string))
    (nmdp : gmap string (list string)) (normalizer : SchoolNormalizer) (ys ye : Z) :
  exists overlaps,
    find_overlaps_for_coach career_history nmdp normalizer ys ye =
      Ok (overlaps, normalizer) /\
    Z.of_nat (length overlaps) <= Z.of_nat (length career_history) * Z.max 0 (ye - ys) /\
    (ye <= ys -> overlaps = []).
Proof.
  destruct (find_overlaps_loop_char nmdp ys ye normalizer career_history)
    as (found & Hrun & _ & Hlen).
  exists found. split; [apply Hrun|]. split; [done|].
  intros Hempty. destruct found; [done|]. cbn [length] in Hlen. nia.
Qed.

(** * Further properties of name cleaning *)

Section UpperCharFacts.

Ltac each_char c := destruct c as [[] [] [] [] [] [] [] []]; vm_compute; congruence.

Lemma space_upper_char c : is_space (upper_char c) = is_space c.
Proof. each_char c. Qed.

Lemma upper_upper_char c : upper_char (upper_char c) = upper_char c.
Proof. each_char c. Qed.

Lemma upper_lower_char c : upper_char (lower_char c) = upper_char c.
Proof. each_char c. Qed.

Lemma space_upper_id c : is_space c = true -> upper_char c = c.
Proof. each_char c. Qed.

End UpperCharFacts.

Lemma upper_upper s : upper (upper s) = upper s.
Proof.
  unfold upper. induction s as [|c s IH]; [done|].
  cbn [smap]. by rewrite upper_upper_char, IH.
Qed.

Lemma upper_lower s : upper (lower s) = upper s.
Proof.
  unfold upper, lower. induction s as [|c s IH]; [done|].
  cbn [smap]. by rewrite upper_lower_char, IH.
Qed.

Lemma lstrip_upper s : lstrip (upper s) = upper (lstrip s).
Proof.
  unfold upper. induction s as [|c s IH]; [done|].
  cbn [smap lstrip]. rewrite space_upper_char. by destruct (is_space c).
Qed.

Lemma rstrip_upper s : rstrip (upper s) = upper (rstrip s).
Proof.
  unfold upper. induction s as [|c s IH]; [done|].
  cbn [smap rstrip]. rewrite IH, space_upper_char.
  destruct (rstrip s); cbn [smap]; [by destruct (is_space c)|done].
Qed.

Lemma strip_upper s : strip (upper s) = upper (strip s).
Proof. unfold strip. by rewrite lstrip_upper, rstrip_upper. Qed.

Lemma collapse_ws_upper s : collapse_ws (upper s) = upper (collapse_ws s).
Proof.
  unfold upper. induction s as [|c s IH]; [done|].
  cbn [smap collapse_ws]. rewrite space_upper_char.
  destruct (is_space c).
  - destruct s as [|c' s]; [done|]. cbn [smap] in *. rewrite space_upper_char.
    destruct (is_space c'); [done|]. cbn [smap]. by rewrite IH.
  - cbn [smap]. by rewrite IH.
Qed.

Lemma rstrip_cons_inv c s : rstrip (String c s) = String c s -> rstrip s = s.
Proof.
  cbn [rstrip]. destruct (rstrip s) eqn:Hr.
  - destruct (is_space c); [done|]. congruence.
  - congruence.
Qed.

Lemma rstrip_rstrip s : rstrip (rstrip s) = rstrip s.
Proof.
  induction s as [|c s IH]; [done|]. cbn [rstrip].
  destruct (rstrip s) as [|a r] eqn:Hr.
  - destruct (is_space c) eqn:Hc; [done|]. cbn [rstrip]. by rewrite Hc.
  - cbn [rstrip] in *. rewrite IH. done.
Qed.

Lemma strip_head s :
  strip s = "" \/ exists c r, strip s = String c r /\ is_space c = false.
Proof.
  unfold strip. induction s as [|c s IH]; [by left|].
  cbn [lstrip]. destruct (is_space c) eqn:Hc; [done|].
  right. cbn [rstrip]. destruct (rstrip s).
  - rewrite Hc. by eexists _, _.
  - by eexists _, _.
Qed.

Lemma collapse_ws_tidy s : forall b,
  rstrip s = s ->
  (b = true -> exists c r, s = String c r /\ is_space c = false) ->
  tidy_from b (collapse_ws s) = true.
Proof.
  induction s as [|c s IH]; intros b Hr Hb.
  - destruct b; [|done]. by destruct Hb as (? & ? & ? & _).
  - pose proof (rstrip_cons_inv _ _ Hr) as Hr'.
    cbn [collapse_ws]. destruct (is_space c) eqn:Hc.
    + assert (b = false) as ->.
      { destruct b; [|done]. destruct Hb as (? & ? & [= <- <-] & ?); congruence. }
      destruct s as [|c' s].
      { cbn [rstrip] in Hr. by rewrite Hc in Hr. }
      destruct (is_space c') eqn:Hc'; [by apply IH|].
      cbn [tidy_from]. change (is_space " ") with true. cbn.
      apply IH; [done|]. intros _. by exists c', s.
    + cbn [tidy_from]. rewrite Hc. by apply IH.
Qed.

Lemma tidy_from_fixed s : forall b,
  tidy_from b s = true -> collapse_ws s = s /\ rstrip s = s.
Proof.
  induction s as [|c s IH]; intros b; [done|].
  cbn [tidy_from collapse_ws]. destruct (is_space c) eqn:Hc.
  - intros [[_ Heq%Ascii.eqb_eq]%andb_prop H]%andb_prop. subst c.
    destruct (IH _ H) as [Hcol Hrs].
    destruct s as [|c' s]; [done|]. cbn [tidy_from] in H.
    destruct (is_space c') eqn:Hc'; [done|].
    split; [by rewrite Hcol|]. cbn [rstrip] in *. by rewrite Hrs.
  - intros H. destruct (IH _ H) as [Hcol Hrs]. split; [by rewrite Hcol|].
    cbn [rstrip]. rewrite Hrs. destruct s; [by rewrite Hc|done].
Qed.

Lemma tidy_fixed s : tidy s = true -> strip s = s /\ collapse_ws s = s.
Proof.
  destruct s as [|c s]; [done|]. unfold tidy. intros H.
  destruct (tidy_from_fixed _ _ H) as [Hcol Hrs]. split; [|done].
  unfold strip. cbn [tidy_from] in H. destruct (is_space c) eqn:Hc; [done|].
  by rewrite lstrip_id.
Qed.

Lemma strip_collapse_tidy s : tidy (collapse_ws (strip s)) = true.
Proof.
  assert (rstrip (strip s) = strip s) as Hr by apply rstrip_rstrip.
  destruct (strip_head s) as [->|(c & r & Hs & Hc)]; [done|].
  rewrite Hs in *.
  pose proof (collapse_ws_tidy (String c r) true Hr) as H.
  cbn [collapse_ws] in *. rewrite Hc in *. apply H. intros _. by exists c, r.
Qed.

Lemma clean_school_name_tidy name :
  tidy (clean_school_name name) = true /\
  upper (clean_school_name name) = clean_school_name name.
Proof.
  unfold clean_school_name. split; [apply strip_collapse_tidy|].
  by rewrite <- collapse_ws_upper, <- strip_upper, upper_upper.
Qed.

(** X11.  [clean_school_name] is idempotent: its result is left alone by
    each of its three steps, putting in upper case, stripping, and
    replacing runs of blanks by one space. *)
Theorem clean_school_name_idempotent (name : string) :
  let cleaned := clean_school_name name in
  upper cleaned = cleaned /\ strip cleaned = cleaned /\ collapse_ws cleaned = cleaned /\
  clean_school_name cleaned = cleaned.
Proof.
  cbv zeta. destruct (clean_school_name_tidy name) as [Ht Hu].
  destruct (tidy_fixed _ Ht) as [Hs Hc].
  do 3 (split; [done|]).
  unfold clean_school_name at 1. by rewrite Hu, Hs, Hc.
Qed.

(** X12.  [clean_school_name] does not see letter case or blanks around the
    name. *)
Theorem clean_school_name_ignores_case_and_outer_blanks (sp1 name sp2 : string) :
  all_chars is_space sp1 = true -> all_chars is_space sp2 = true ->
  clean_school_name (sp1 +:+ name +:+ sp2) = clean_school_name name /\
  clean_school_name (upper name) = clean_school_name name /\
  clean_school_name (lower name) = clean_school_name name.
Proof.
  intros H1 H2. unfold clean_school_name. split; [|split].
  - rewrite !strip_upper, strip_spaces_around; done.
  - by rewrite upper_upper.
  - by rewrite upper_lower.
Qed.

Lemma clean_school_name_ignores_case_and_outer_blanks_witness :
  clean_school_name ("  " +:+ "Oregon State" +:+ " ") = clean_school_name "Oregon State".
Proof.
  by apply (proj1 (clean_school_name_ignores_case_and_outer_blanks "  " "Oregon State" " "
                     eq_refl eq_refl)).
Defined.

(** * Further properties of the alias index and the normalizer *)

Lemma alias_inner_lookup (cu k v : string) al (m : gmap string string) :
  foldl (fun m alias => <[upper alias := cu]> m) m al !! k = Some v ->
  m !! k = Some v \/ (v = cu /\ exists a, a ∈ al /\ k = upper a).
Proof.
  revert m. induction al as [|x al IH]; intros m; [by left|].
  cbn [foldl]. intros [H|(-> & a & Ha & ->)]%IH.
  - destruct (decide (upper x = k)) as [<-|Hne].
    + rewrite lookup_insert_eq in H. injection H as <-.
      right. split; [done|]. exists x. split; [apply list_elem_of_here|done].
    + rewrite lookup_insert_ne in H by done. by left.
  - right. split; [done|]. exists a. split; [by apply list_elem_of_further|done].
Qed.

Lemma alias_step_is_Some k entry (m : gmap string string) :
  is_Some (m !! k) -> is_Some (alias_step m entry !! k).
Proof.
  unfold alias_step. destruct (startswith _ _); [done|].
  generalize (upper entry.1) as cu. intros cu.
  revert m. induction entry.2 as [|x al IH]; intros m Hm; [done|].
  cbn [foldl]. apply IH.
  destruct (decide (upper x = k)) as [<-|Hne].
  - by rewrite lookup_insert_eq.
  - by rewrite lookup_insert_ne.
Qed.

Lemma reverse_alias_sound (aliases : list (string * list string)) (k v : string) :
  build_reverse_alias_map aliases !! k = Some v ->
  exists c al a, (c, al) ∈ aliases /\ startswith c "_" = false /\ a ∈ al /\
                 k = upper a /\ v = upper c.
Proof.
  rewrite build_reverse_alias_map_foldl. revert v.
  induction aliases as [|[c0 al0] aliases IH] using rev_ind; intros v.
  - cbn. by rewrite lookup_empty.
  - rewrite foldl_app. cbn [foldl]. unfold alias_step at 1. cbn [fst snd].
    destruct (startswith c0 "_") eqn:Hc0.
    + intros (c & al & a & Hin & ?)%IH. exists c, al, a.
      split; [apply elem_of_app; by left|done].
    + intros [(c & al & a & Hin & ?)%IH|(-> & a & Ha & ->)]%alias_inner_lookup.
      * exists c, al, a. split; [apply elem_of_app; by left|done].
      * exists c0, al0, a. split; [|done].
        apply elem_of_app. right. apply list_elem_of_here.
Qed.

Lemma reverse_alias_complete (aliases : list (string * list string)) c al a :
  (c, al) ∈ aliases -> startswith c "_" = false -> a ∈ al ->
  is_Some (build_reverse_alias_map aliases !! upper a).
Proof.
  rewrite build_reverse_alias_map_foldl.
  induction aliases as [|[c0 al0] aliases IH] using rev_ind.
  - by intros H%elem_of_nil.
  - rewrite foldl_app. cbn [foldl].
    intros [Hin|Hin%list_elem_of_singleton]%elem_of_app Hc Ha.
    + apply alias_step_is_Some. by apply IH.
    + injection Hin as -> ->. unfold alias_step. cbn [fst snd]. rewrite Hc.
      by rewrite (aliases_written (upper c0) a al0).
Qed.

(** X13.  The reverse alias index holds exactly the upper-case forms of the
    aliases listed under keys that do not start with "_", and sends each
    to the upper-case form of a key that lists it. *)
Theorem build_reverse_alias_map_entries (aliases : list (string * list string))
    (k : string) :
  (forall v, build_reverse_alias_map aliases !! k = Some v ->
     exists c al a, (c, al) ∈ aliases /\ startswith c "_" = false /\ a ∈ al /\
                    k = upper a /\ v = upper c) /\
  (forall c al a, (c, al) ∈ aliases -> startswith c "_" = false -> a ∈ al ->
     k = upper a -> is_Some (build_reverse_alias_map aliases !! k)).
Proof.
  split; [intros v; apply reverse_alias_sound|].
  intros c al a Hin Hc Ha ->. by apply (reverse_alias_complete aliases c al a).
Qed.

Lemma build_reverse_alias_map_entries_witness :
  is_Some (build_reverse_alias_map [("OREGON STATE UNIVERSITY", ["Oregon State"])]
             !! "OREGON STATE").
Proof.
  apply (proj2 (build_reverse_alias_map_entries
                  [("OREGON STATE UNIVERSITY", ["Oregon State"])] "OREGON STATE")
           "OREGON STATE UNIVERSITY" ["Oregon State"] "Oregon State").
  - apply list_elem_of_here.
  - reflexivity.
  - apply list_elem_of_here.
  - reflexivity.
Defined.

(** X14.  For an instance built by [__init__], [normalize] without fuzzy
    matching never answers "fuzzy".  It answers "exact", with the cleaned
    name, exactly when the cleaned name is the upper-case form of a key of
    the database; "alias" only with the upper-case form of an alias-table
    key, not starting with "_", that lists a spelling of the cleaned name;
    and "none", with the cleaned name, only when no database key and no such
    alias fits. *)
Theorem normalize_constructed_without_fuzzy (db : gmap string (list string))
    (al : list (string * list string)) (name : string) (threshold : Q) :
  let cleaned := clean_school_name name in
  let res := (normalize (new_normalizer db al) name false threshold).1 in
  res.2 <> Fuzzy /\
  (res.2 = Exact <-> exists k, is_Some (db !! k) /\ upper k = cleaned) /\
  (res.2 = Exact -> res.1 = cleaned) /\
  (res.2 = Alias ->
   exists c l a, (c, l) ∈ al /\ startswith c "_" = false /\ a ∈ l /\
                 cleaned = upper a /\ res.1 = upper c) /\
  (res.2 = NoMatch ->
   res.1 = cleaned /\
   (forall k, is_Some (db !! k) -> upper k <> cleaned) /\
   (forall c l a, (c, l) ∈ al -> startswith c "_" = false -> a ∈ l ->
                  upper a <> cleaned)).
Proof.
  cbv zeta. unfold normalize, new_normalizer. cbv zeta.
  cbn [nmdp_schools reverse_aliases].
  assert (clean_school_name name ∈ (set_map upper (dom db) : gset string) <->
          exists k, is_Some (db !! k) /\ upper k = clean_school_name name) as Hexact.
  { rewrite elem_of_map. split.
    - intros (k & -> & Hk%elem_of_dom). by exists k.
    - intros (k & Hk & <-). exists k. split; [done|]. by apply elem_of_dom. }
  destruct (bool_decide_reflect
              (clean_school_name name ∈ (set_map upper (dom db) : gset string)))
    as [Hin|Hout].
  - cbn. split; [done|]. split; [by rewrite <- Hexact|]. by repeat split.
  - destruct (build_reverse_alias_map al !! clean_school_name name) as [c|] eqn:Hal; cbn.
    + split; [done|]. split; [split; [done|by rewrite <- Hexact]|].
      split; [done|]. split; [|done].
      intros _. apply reverse_alias_sound in Hal as (c' & l & a & ? & ? & ? & ? & ?).
      by exists c', l, a.
    + split; [done|]. split; [split; [done|by rewrite <- Hexact]|].
      split; [done|]. split; [done|]. intros _. split; [done|]. split.
      * intros k Hk Heq. apply Hout, Hexact. by exists k.
      * intros c l a Hin Hc Ha Heq.
        destruct (reverse_alias_complete al c l a Hin Hc Ha) as [v Hv].
        rewrite Heq in Hv. congruence.
Qed.

Lemma normalize_constructed_without_fuzzy_witness :
  (normalize (new_normalizer {[ "Oregon State" := ["2020-2021"] ]} []) " oregon  STATE"
     false (85 # 100)).1.2 = Exact.
Proof.
  apply (proj1 (proj2 (normalize_constructed_without_fuzzy
                         {[ "Oregon State" := ["2020-2021"] ]} [] " oregon  STATE"
                         (85 # 100)))).
  exists "Oregon State". split; [|reflexivity].
  by rewrite lookup_singleton_eq.
Defined.

Lemma normalize_result_log self name use_fuzzy :
  normalize self name use_fuzzy (85 # 100) =
  ((normalize self name use_fuzzy (85 # 100)).1,
   match logged self use_fuzzy name with
   | Some entry =>
       {| nmdp_db := nmdp_db self;
          aliases := aliases self;
          nmdp_schools := nmdp_schools self;
          reverse_aliases := reverse_aliases self;
          fuzzy_match_log := fuzzy_match_log self ++ [entry] |}
   | None => self
   end).
Proof.
  unfold normalize, logged. cbv zeta.
  destruct (bool_decide _); [done|].
  destruct (reverse_aliases self !! _); [done|].
  destruct use_fuzzy; [|done].
  by destruct (fuzzy_match _ _ _) as [[m sc]|].
Qed.

Lemma normalize_same_tables self1 self2 name use_fuzzy threshold :
  nmdp_schools self1 = nmdp_schools self2 ->
  reverse_aliases self1 = reverse_aliases self2 ->
  (normalize self1 name use_fuzzy threshold).1 = (normalize self2 name use_fuzzy threshold).1.
Proof.
  intros Hs Ha. unfold normalize. cbv zeta. rewrite Hs, Ha.
  destruct (bool_decide _); [done|].
  destruct (reverse_aliases self2 !! _); [done|].
  destruct use_fuzzy; [|done].
  by destruct (fuzzy_match _ _ _) as [[m sc]|].
Qed.

Lemma logged_same_tables self1 self2 name use_fuzzy :
  nmdp_schools self1 = nmdp_schools self2 ->
  reverse_aliases self1 = reverse_aliases self2 ->
  logged self1 use_fuzzy name = logged self2 use_fuzzy name.
Proof. intros Hs Ha. unfold logged. by rewrite Hs, Ha. Qed.

Lemma normalize_batch_loop_spec use_fuzzy names : forall self results,
  normalize_batch_loop self names use_fuzzy results =
  (results ++
     ((fun name => batch_entry self name (normalize self name use_fuzzy (85 # 100)).1)
        <$> names),
   {| nmdp_db := nmdp_db self;
      aliases := aliases self;
      nmdp_schools := nmdp_schools self;
      reverse_aliases := reverse_aliases self;
      fuzzy_match_log := fuzzy_match_log self ++ omap (logged self use_fuzzy) names |}).
Proof.
  induction names as [|name names IH]; intros self results.
  - cbn. rewrite !app_nil_r. by destruct self.
  - cbn [normalize_batch_loop]. rewrite (normalize_result_log self name use_fuzzy).
    destruct (normalize self name use_fuzzy (85 # 100)).1 as [normalized mt] eqn:Hres.
    set (self' := match logged self use_fuzzy name with Some _ => _ | None => _ end).
    assert (nmdp_schools self' = nmdp_schools self /\
            reverse_aliases self' = reverse_aliases self /\
            nmdp_db self' = nmdp_db self /\ aliases self' = aliases self /\
            fuzzy_match_log self' =
              fuzzy_match_log self ++ option_list (logged self use_fuzzy name))
      as (Hs & Ha & Hd & Hal & Hlog).
    { subst self'. destruct (logged self use_fuzzy name); cbn; [done|].
      by rewrite app_nil_r. }
    rewrite IH. rewrite Hs, Ha, Hd, Hal, Hlog. f_equal.
    + rewrite <- app_assoc, fmap_cons. cbn [app]. do 2 f_equal.
      * unfold batch_entry. by rewrite Hres.
      * apply list_fmap_ext. intros _ n _. unfold batch_entry.
        by rewrite Hs, (normalize_same_tables self' self).
    + f_equal. rewrite <- app_assoc. f_equal.
      assert (omap (logged self' use_fuzzy) names = omap (logged self use_fuzzy) names)
        as ->.
      { clear IH. induction names as [|n names IHn]; [done|]. cbn [omap list_omap].
        by rewrite IHn, (logged_same_tables self' self). }
      cbn [omap list_omap]. by destruct (logged self use_fuzzy name).
Qed.

(** X15.  [normalize_batch] answers name by name what [normalize] answers
    on the instance as it was at the start, in the order of the names; it
    leaves the canonical names and the alias index alone, and adds to the
    log, in order, the entries of the names that were matched fuzzily. *)
Theorem normalize_batch_pointwise (self : SchoolNormalizer) (names : list string)
    (use_fuzzy : bool) :
  let results := (normalize_batch self names use_fuzzy).1 in
  let self' := (normalize_batch self names use_fuzzy).2 in
  results =
    (fun name => batch_entry self name (normalize self name use_fuzzy (85 # 100)).1)
      <$> names /\
  batch_original <$> results = names /\
  nmdp_schools self' = nmdp_schools self /\
  reverse_aliases self' = reverse_aliases self /\
  fuzzy_match_log self' = fuzzy_match_log self ++ omap (logged self use_fuzzy) names /\
  (use_fuzzy = false -> self' = self).
Proof.
  cbv zeta. unfold normalize_batch. rewrite normalize_batch_loop_spec. cbn [fst snd app].
  split; [done|]. split.
  { rewrite <- list_fmap_compose. by rewrite <- (list_fmap_id names) at 2. }
  do 3 (split; [done|]).
  intros ->.
  assert (omap (logged self false) names = []) as ->.
  { induction names as [|n names IH]; [done|]. cbn [omap list_omap]. rewrite IH.
    unfold logged. cbv zeta.
    destruct (bool_decide _); [done|]. by destruct (reverse_aliases self !! _). }
  rewrite app_nil_r. by destruct self.
Qed.

(** X16.  The standalone [normalize_school_name] returns the name that
    [SchoolNormalizer.normalize] returns with fuzzy matching on, for an
    instance that holds the same canonical names and the index of the same
    alias table. *)
Theorem normalize_school_name_agrees (self : SchoolNormalizer) (name : string) :
  reverse_aliases self = build_reverse_alias_map (aliases self) ->
  normalize_school_name name (aliases self) (nmdp_schools self) =
  (normalize self name true (85 # 100)).1.1.
Proof.
  intros Hra. unfold normalize_school_name, normalize. cbv zeta. rewrite <- Hra.
  destruct (bool_decide _); [done|].
  destruct (reverse_aliases self !! _); [done|].
  by destruct (fuzzy_match _ _ _) as [[m sc]|].
Qed.

Lemma normalize_school_name_agrees_witness :
  normalize_school_name "Oregon State" (aliases exact_alias_clash)
    (nmdp_schools exact_alias_clash) =
  (normalize exact_alias_clash "Oregon State" true (85 # 100)).1.1.
Proof. by apply normalize_school_name_agrees. Defined.

(** * Further properties of fuzzy matching *)

Section FuzzyFold.
Variables (name_upper : string) (threshold : Q).

Let sim (c : string) : Q := Difflib.similarity name_upper (upper c).

Let pick : option string * Q -> string -> option string * Q :=
  fun '(best_match, best_score) candidate =>
    let score := Difflib.similarity name_upper (upper candidate) in
    if Qltb best_score score && Qle_bool threshold score
    then (Some candidate, score)
    else (best_match, best_score).

(** What the loop of [fuzzy_match] holds after the candidates [seen]. *)
Let best_of (seen : list string) (st : option string * Q) : Prop :=
  match st.1 with
  | None =>
      st.2 = 0%Q /\ forall c, c ∈ seen -> ~ ((0 < sim c)%Q /\ (threshold <= sim c)%Q)
  | Some m =>
      m ∈ seen /\ st.2 = sim m /\ (0 < sim m)%Q /\ (threshold <= sim m)%Q /\
      forall c, c ∈ seen -> (threshold <= sim c)%Q -> (sim c <= sim m)%Q
  end.

Lemma pick_keeps_best seen st c :
  best_of seen st -> best_of (seen ++ [c]) (pick st c).
Proof.
  destruct st as [[m|] bs]; unfold best_of, pick; cbn [fst snd]; fold (sim c).
  - intros (Hm & -> & Hpos & Hth & Hmax).
    unfold Qltb. destruct (Qle_bool (sim c) (sim m)) eqn:Hle; cbn [negb andb fst snd].
    + apply Qle_bool_iff in Hle. split; [apply elem_of_app; by left|].
      do 3 (split; [done|]).
      intros c' [Hc'|Hc'%list_elem_of_singleton]%elem_of_app Hq; [by apply Hmax|subst c'; done].
    + assert (sim m < sim c)%Q as Hlt.
      { apply Qnot_le_lt. intros H%Qle_bool_iff. congruence. }
      destruct (Qle_bool threshold (sim c)) eqn:Hq; cbn [fst snd].
      * apply Qle_bool_iff in Hq. split; [apply elem_of_app; right; apply list_elem_of_here|].
        split; [done|]. split; [by eapply Qlt_trans|]. split; [done|].
        intros c' [Hc'|Hc'%list_elem_of_singleton]%elem_of_app Hq'; [|subst c'; apply Qle_refl].
        eapply Qle_trans; [by apply Hmax|by apply Qlt_le_weak].
      * split; [apply elem_of_app; by left|]. do 3 (split; [done|]).
        intros c' [Hc'|Hc'%list_elem_of_singleton]%elem_of_app Hq'; [by apply Hmax|subst c'].
        apply Qle_bool_iff in Hq'. congruence.
  - intros [-> Hnone].
    unfold Qltb. destruct (Qle_bool (sim c) 0) eqn:Hle; cbn [negb andb fst snd].
    + apply Qle_bool_iff in Hle. split; [done|].
      intros c' [Hc'|Hc'%list_elem_of_singleton]%elem_of_app; [by apply Hnone|subst c'].
      intros [Hpos _]. by apply Qlt_not_le in Hpos.
    + assert (0 < sim c)%Q as Hlt.
      { apply Qnot_le_lt. intros H%Qle_bool_iff. congruence. }
      destruct (Qle_bool threshold (sim c)) eqn:Hq; cbn [fst snd].
      * apply Qle_bool_iff in Hq. split; [apply elem_of_app; right; apply list_elem_of_here|].
        do 3 (split; [done|]).
        intros c' [Hc'|Hc'%list_elem_of_singleton]%elem_of_app Hq'; [|subst c'; apply Qle_refl].
        destruct (Qlt_le_dec 0 (sim c')) as [Hpos|Hzero].
        -- by destruct (Hnone c' Hc').
        -- eapply Qle_trans; [done|by apply Qlt_le_weak].
      * split; [done|].
        intros c' [Hc'|Hc'%list_elem_of_singleton]%elem_of_app; [by apply Hnone|subst c'].
        intros [_ Hq']. apply Qle_bool_iff in Hq'. congruence.
Qed.

Lemma fold_keeps_best l : forall seen st,
  best_of seen st -> best_of (seen ++ l) (foldl pick st l).
Proof.
  induction l as [|c l IH]; intros seen st Hst; [by rewrite app_nil_r|].
  cbn [foldl]. rewrite (cons_middle c seen l), app_assoc. by apply IH, pick_keeps_best.
Qed.

Lemma fuzzy_fold_best l :
  match (foldl pick (None, 0%Q) l).1 with
  | None => forall c, c ∈ l -> ~ ((0 < sim c)%Q /\ (threshold <= sim c)%Q)
  | Some m =>
      m ∈ l /\ (foldl pick (None, 0%Q) l).2 = sim m /\ (0 < sim m)%Q /\
      (threshold <= sim m)%Q /\
      forall c, c ∈ l -> (threshold <= sim c)%Q -> (sim c <= sim m)%Q
  end.
Proof.
  pose proof (fold_keeps_best l [] (None, 0%Q)) as H. cbn [app] in H.
  unfold best_of in H. cbn [fst snd] in H.
  destruct (foldl pick (None, 0%Q) l) as [[m|] bs]; cbn [fst snd] in *.
  - apply H. split; [done|]. by intros c ?%elem_of_nil.
  - apply H. split; [done|]. by intros c ?%elem_of_nil.
Qed.

End FuzzyFold.

Lemma ratio_one_empty (a b : list ascii) :
  Nat.min (length a) (length b) = 0%nat -> (length a + length b)%nat <> 0%nat ->
  ~ (0 < Difflib.ratio a b)%Q.
Proof.
  intros Hmin Hlen. unfold Difflib.ratio. cbv zeta.
  pose proof (DifflibFacts.matches_le a b) as Hm. rewrite Hmin in Hm.
  assert (Difflib.matches a b = 0%nat) as -> by lia.
  destruct (Nat.eqb_spec (length a + length b) 0); [done|].
  unfold Qlt. cbn. lia.
Qed.

Lemma list_ascii_nonempty s : s <> "" -> length (String.list_ascii_of_string s) <> 0%nat.
Proof. by destruct s. Qed.

Lemma similarity_empty_left t : t <> "" -> ~ (0 < Difflib.similarity "" t)%Q.
Proof.
  intros Ht%list_ascii_nonempty. unfold Difflib.similarity.
  apply ratio_one_empty; cbn [String.list_ascii_of_string length]; lia.
Qed.

Lemma similarity_empty_right s : s <> "" -> ~ (0 < Difflib.similarity s "")%Q.
Proof.
  intros Hs%list_ascii_nonempty. unfold Difflib.similarity.
  apply ratio_one_empty; cbn [String.list_ascii_of_string length]; lia.
Qed.

Lemma upper_nonempty c : c <> "" -> upper c <> "".
Proof. by destruct c. Qed.

Lemma fuzzy_match_some name candidates threshold m sc :
  fuzzy_match name candidates threshold = Some (m, sc) ->
  m ∈ candidates /\ m <> "" /\
  sc = Difflib.similarity (upper name) (upper m) /\
  (threshold <= sc)%Q /\ (0 < sc)%Q /\ (sc <= 1)%Q /\
  forall c, c ∈ candidates ->
    (threshold <= Difflib.similarity (upper name) (upper c))%Q ->
    (Difflib.similarity (upper name) (upper c) <= sc)%Q.
Proof.
  unfold fuzzy_match. cbv zeta.
  pose proof (fuzzy_fold_best (upper name) threshold (elements candidates)) as H.
  cbv beta zeta in H.
  destruct (foldl _ _ (elements candidates)) as [[bm|] bs] eqn:Hfold; [|done].
  cbn [fst snd] in H. destruct H as (Hin & -> & Hpos & Hth & Hmax).
  destruct (bool_decide_reflect (bm = "")) as [|Hne]; [done|].
  intros [= <- <-]. split; [by apply elem_of_elements|]. do 4 (split; [done|]).
  split.
  - unfold Difflib.similarity. apply DifflibFacts.ratio_range.
  - intros c Hc. apply Hmax. by apply elem_of_elements.
Qed.

Lemma fuzzy_match_none name candidates threshold :
  fuzzy_match name candidates threshold = None ->
  forall c, c ∈ candidates -> c <> "" ->
    ~ ((0 < Difflib.similarity (upper name) (upper c))%Q /\
       (threshold <= Difflib.similarity (upper name) (upper c))%Q).
Proof.
  unfold fuzzy_match. cbv zeta.
  pose proof (fuzzy_fold_best (upper name) threshold (elements candidates)) as H.
  cbv beta zeta in H.
  destruct (foldl _ _ (elements candidates)) as [[bm|] bs] eqn:Hfold; cbn [fst snd] in H.
  - destruct H as (Hin & -> & Hpos & Hth & Hmax).
    destruct (bool_decide_reflect (bm = "")) as [->|Hne]; [|done].
    intros _ c Hc Hcne [Hcpos _].
    destruct (decide (upper name = "")) as [Hn|Hn].
    + rewrite Hn in Hcpos.
      by apply (similarity_empty_left (upper c)); [apply upper_nonempty|].
    + by apply (similarity_empty_right (upper name)).
  - intros _ c Hc _. apply H. by apply elem_of_elements.
Qed.

(** X17.  When [fuzzy_match] returns a pair, the name is one of the
    candidates and is not empty, the score is its similarity to the upper-
    cased name, positive, at least the threshold and at most 1, and no
    candidate that reaches the threshold scores higher.  When it returns
    nothing, no candidate other than the empty name has a positive score
    that reaches the threshold. *)
Theorem fuzzy_match_best (name : string) (candidates : gset string) (threshold : Q) :
  (forall m sc,
     fuzzy_match name candidates threshold = Some (m, sc) ->
     m ∈ candidates /\ m <> "" /\
     sc = Difflib.similarity (upper name) (upper m) /\
     (threshold <= sc)%Q /\ (0 < sc)%Q /\ (sc <= 1)%Q /\
     forall c, c ∈ candidates ->
       (threshold <= Difflib.similarity (upper name) (upper c))%Q ->
       (Difflib.similarity (upper name) (upper c) <= sc)%Q) /\
  (fuzzy_match name candidates threshold = None ->
   forall c, c ∈ candidates -> c <> "" ->
     ~ ((0 < Difflib.similarity (upper name) (upper c))%Q /\
        (threshold <= Difflib.similarity (upper name) (upper c))%Q)).
Proof.
  split; [intros m sc; apply fuzzy_match_some|apply fuzzy_match_none].
Qed.

Lemma fuzzy_match_best_witness :
  exists m sc,
    fuzzy_match "Oregon Stat" {[ "OREGON STATE" ]} (85 # 100) = Some (m, sc) /\
    m ∈ ({[ "OREGON STATE" ]} : gset string) /\ Qle (85 # 100) sc /\ Qle sc 1.
Proof.
  destruct (fuzzy_match "Oregon Stat" {[ "OREGON STATE" ]} (85 # 100))
    as [[m sc]|] eqn:Hfm; [|vm_compute in Hfm; discriminate Hfm].
  exists m, sc. split; [reflexivity|].
  destruct (proj1 (fuzzy_match_best "Oregon Stat" {[ "OREGON STATE" ]} (85 # 100))
              m sc Hfm) as (Hin & _ & _ & Hth & _ & Hle & _).
  split; [exact Hin|]. split; [exact Hth|exact Hle].
Defined.

(** X18.  An "exact" or "fuzzy" answer of [normalize] is a canonical name.
    A "fuzzy" answer is given only with fuzzy matching on, for a cleaned
    name that is neither canonical nor a key of the alias index, and comes
    with one new log entry that holds the name as given, the answer, and
    the score: the similarity of the cleaned name and the answer, at least
    the threshold and at most 1. *)
Theorem normalize_fuzzy_answer (self : SchoolNormalizer) (name : string)
    (use_fuzzy : bool) (threshold : Q) :
  let cleaned := clean_school_name name in
  let res := (normalize self name use_fuzzy threshold).1 in
  let self' := (normalize self name use_fuzzy threshold).2 in
  (res.2 = Exact \/ res.2 = Fuzzy -> res.1 ∈ nmdp_schools self) /\
  (res.2 = Fuzzy ->
   use_fuzzy = true /\ (cleaned ∉ nmdp_schools self) /\
   reverse_aliases self !! cleaned = None /\
   (threshold <= Difflib.similarity cleaned (upper res.1))%Q /\
   (Difflib.similarity cleaned (upper res.1) <= 1)%Q /\
   fuzzy_match_log self' =
     fuzzy_match_log self ++
     [{| original := name; matched_to := res.1;
         score := Difflib.similarity cleaned (upper res.1) |}]).
Proof.
  cbv zeta. unfold normalize. cbv zeta.
  destruct (bool_decide_reflect (clean_school_name name ∈ nmdp_schools self)) as [Hin|Hout].
  { cbn. split; [done|]. by intros [=]. }
  destruct (reverse_aliases self !! _) eqn:Hal.
  { cbn. split; [by intros [[=]|[=]]|]. by intros [=]. }
  destruct use_fuzzy.
  2:{ cbn. split; [by intros [[=]|[=]]|]. by intros [=]. }
  destruct (fuzzy_match _ _ _) as [[m sc]|] eqn:Hf.
  2:{ cbn. split; [by intros [[=]|[=]]|]. by intros [=]. }
  apply fuzzy_match_some in Hf as (Hm & _ & -> & Hth & _ & Hle & _).
  destruct (clean_school_name_tidy name) as [_ Hu]. rewrite Hu in *.
  cbn. split; [done|]. intros _. by repeat split.
Qed.

Lemma normalize_fuzzy_answer_witness :
  (normalize exact_alias_clash "Oregon State" true (85 # 100)).1.1
    ∈ nmdp_schools exact_alias_clash.
Proof.
  apply (proj1 (normalize_fuzzy_answer exact_alias_clash "Oregon State" true (85 # 100))).
  left. vm_compute. reflexivity.
Defined.

(** * Further properties of the NFL filter *)

Lemma nfl_city_check_keyword name_upper :
  nfl_city_check name_upper = true ->
  exists keyword, In keyword nfl_keywords /\ contains keyword name_upper = true.
Proof.
  unfold nfl_city_check.
  intros (city & _ & [_ Hrem]%andb_prop)%existsb_exists.
  apply existsb_exists in Hrem as (keyword & Hin & Hk).
  apply contains_rstrip, contains_lstrip, contains_drop_str in Hk. by exists keyword.
Qed.

(** X19.  [is_nfl_team] answers [True] only for a name that holds one of
    the NFL keywords; it answers [True] for every name that holds one and
    holds neither "UNIVERSITY" nor "COLLEGE"; and it does not see letter
    case. *)
Theorem is_nfl_team_keyword (name : string) :
  (is_nfl_team name = true ->
   exists keyword, keyword ∈ nfl_keywords /\ contains keyword (upper name) = true) /\
  (forall keyword,
     keyword ∈ nfl_keywords -> contains keyword (upper name) = true ->
     contains "UNIVERSITY" (upper name) = false ->
     contains "COLLEGE" (upper name) = false ->
     is_nfl_team name = true) /\
  is_nfl_team (upper name) = is_nfl_team name /\
  is_nfl_team (lower name) = is_nfl_team name.
Proof.
  split; [|split].
  - unfold is_nfl_team. cbv zeta.
    destruct (nfl_keyword_check (upper name)) eqn:Hkw.
    + intros _. unfold nfl_keyword_check in Hkw.
      apply existsb_exists in Hkw as (keyword & Hin & [Hk _]%andb_prop).
      exists keyword. by rewrite list_elem_of_In.
    + destruct (nfl_city_check (upper name)) eqn:Hcity; [|done].
      intros _. apply nfl_city_check_keyword in Hcity as (keyword & Hin & Hk).
      exists keyword. by rewrite list_elem_of_In.
  - intros keyword Hin%list_elem_of_In Hk Hu Hc. unfold is_nfl_team. cbv zeta.
    assert (nfl_keyword_check (upper name) = true) as ->; [|done].
    unfold nfl_keyword_check. apply existsb_exists. exists keyword.
    by rewrite Hk, Hu, Hc.
  - unfold is_nfl_team. by rewrite upper_upper, upper_lower.
Qed.

Lemma is_nfl_team_keyword_witness : is_nfl_team "denver broncos (NFL)" = true.
Proof.
  apply (proj1 (proj2 (is_nfl_team_keyword "denver broncos (NFL)")) "BRONCOS").
  - apply list_elem_of_In. vm_compute. tauto.
  - reflexivity.
  - reflexivity.
  - reflexivity.
Defined.

(** * Properties of the summary line *)

Lemma add_year_keys school year by_school :
  (add_year school year by_school).*1 =
  if bool_decide (school ∈ by_school.*1) then by_school.*1 else by_school.*1 ++ [school].
Proof.
  induction by_school as [|[s ys] rest IH]; [done|].
  cbn [add_year fmap list_fmap fst].
  destruct (bool_decide_reflect (s = school)) as [->|Hne].
  - by rewrite bool_decide_eq_true_2 by apply list_elem_of_here.
  - cbn [fmap list_fmap fst]. rewrite IH.
    destruct (bool_decide_reflect (school ∈ rest.*1)) as [Hin|Hout].
    + by rewrite bool_decide_eq_true_2 by by apply list_elem_of_further.
    + rewrite bool_decide_eq_false_2; [done|].
      intros [?|?]%elem_of_cons; congruence.
Qed.

Lemma add_year_lookup school year by_school s :
  NoDup by_school.*1 ->
  forall ys, (s, ys) ∈ add_year school year by_school <->
    if bool_decide (s = school)
    then (exists ys0, ys = ys0 ++ [year] /\
                      ((s, ys0) ∈ by_school \/ (ys0 = [] /\ s ∉ by_school.*1)))
    else (s, ys) ∈ by_school.
Proof.
  induction by_school as [|[s0 ys0] rest IH]; intros Hnd ys.
  - cbn [add_year]. rewrite list_elem_of_singleton.
    destruct (bool_decide_reflect (s = school)) as [Heq|Hne]; [subst s|].
    + split.
      * intros [= ->]. exists []. split; [done|]. right. split; [done|]. by intros ?%elem_of_nil.
      * intros (ys1 & -> & [?%elem_of_nil|[-> _]]); done.
    + split; [intros [= -> ->]; done|by intros ?%elem_of_nil].
  - cbn [fmap list_fmap fst] in Hnd. apply NoDup_cons in Hnd as [Hfresh Hnd].
    cbn [add_year]. destruct (bool_decide_reflect (s0 = school)) as [->|Hne0].
    + rewrite elem_of_cons. destruct (bool_decide_reflect (s = school)) as [Heq|Hne]; [subst s|].
      * split.
        -- intros [[= ->]|Hin].
           ++ exists ys0. split; [done|]. left. apply list_elem_of_here.
           ++ exfalso. apply Hfresh. apply list_elem_of_fmap. by exists (school, ys).
        -- intros (ys1 & -> & [[[= ->]|Hin]%elem_of_cons|[-> Hout]]).
           ++ by left.
           ++ exfalso. apply Hfresh. apply list_elem_of_fmap. by exists (school, ys1).
           ++ exfalso. apply Hout. apply list_elem_of_here.
      * rewrite elem_of_cons. split; (intros [[= -> ?]|?]; [done|by right]).
    + rewrite elem_of_cons, (IH Hnd). destruct (bool_decide_reflect (s = school)) as [Heq|Hne]; [subst s|].
      * split.
        -- intros [[= -> _]|(ys1 & -> & [Hin|[-> Hout]])]; [done| |].
           ++ exists ys1. split; [done|]. left. by apply list_elem_of_further.
           ++ exists []. split; [done|]. right. split; [done|].
              cbn [fmap list_fmap fst]. intros [?|?]%elem_of_cons; congruence.
        -- intros (ys1 & -> & [[[= -> _]|Hin]%elem_of_cons|[-> Hout]]); [done| |].
           ++ right. exists ys1. split; [done|]. by left.
           ++ right. exists []. split; [done|]. right. split; [done|].
              intros Hin. apply Hout. cbn [fmap list_fmap fst]. by apply list_elem_of_further.
      * by rewrite elem_of_cons.
Qed.

Lemma add_year_NoDup school year by_school :
  NoDup by_school.*1 -> NoDup (add_year school year by_school).*1.
Proof.
  intros Hnd. rewrite add_year_keys.
  destruct (bool_decide_reflect (school ∈ by_school.*1)); [done|].
  apply NoDup_app. split; [done|]. split; [|apply NoDup_singleton].
  intros x Hx ->%list_elem_of_singleton. done.
Qed.

Lemma filter_school_none (s : string) (overlaps : list OverlapRecord) :
  s ∉ school <$> overlaps -> filter (fun r => school r = s) overlaps = [].
Proof.
  induction overlaps as [|r overlaps IH]; [done|].
  cbn [fmap list_fmap]. intros Hout. rewrite filter_cons_False.
  - apply IH. intros Hin. apply Hout. by apply list_elem_of_further.
  - intros Heq. apply Hout. rewrite Heq. apply list_elem_of_here.
Qed.

Lemma group_by_school_spec overlaps :
  NoDup (group_by_school overlaps).*1 /\
  (forall s, s ∈ (group_by_school overlaps).*1 <-> s ∈ school <$> overlaps) /\
  (forall s ys, (s, ys) ∈ group_by_school overlaps <->
     s ∈ school <$> overlaps /\
     ys = academic_year <$> filter (fun r => school r = s) overlaps).
Proof.
  unfold group_by_school.
  induction overlaps as [|r overlaps (Hnd & Hkeys & Hgroups)] using rev_ind.
  - cbn. split; [constructor|]. split; [done|].
    intros s ys. split; [by intros ?%elem_of_nil|]. by intros [?%elem_of_nil _].
  - rewrite foldl_app. cbn [foldl].
    set (g := foldl _ [] overlaps) in *.
    split; [by apply add_year_NoDup|]. split.
    + intros s. rewrite add_year_keys, fmap_app, elem_of_app. cbn [fmap list_fmap].
      rewrite list_elem_of_singleton, <- Hkeys.
      destruct (bool_decide_reflect (school r ∈ g.*1)) as [Hin|Hout].
      * split; [by left|]. by intros [?| ->].
      * by rewrite elem_of_app, list_elem_of_singleton.
    + intros s ys. rewrite (add_year_lookup _ _ _ _ Hnd).
      rewrite fmap_app, elem_of_app, filter_app, fmap_app. cbn [fmap list_fmap].
      rewrite list_elem_of_singleton.
      destruct (bool_decide_reflect (s = school r)) as [->|Hne].
      * rewrite filter_cons_True by done. rewrite filter_nil. cbn [fmap list_fmap].
        split.
        -- intros (ys0 & -> & [Hin|[-> Hout]]).
           ++ apply Hgroups in Hin as [_ ->]. split; [by right|done].
           ++ split; [by right|]. f_equal. symmetry.
              assert (filter (fun r0 => school r0 = school r) overlaps = []) as ->; [|done].
              apply filter_school_none. intros Hin. by apply Hout, Hkeys.
        -- intros [_ ->]. eexists. split; [reflexivity|].
           destruct (decide (school r ∈ g.*1)) as [Hin|Hout].
           ++ left. apply Hgroups. split; [by apply Hkeys|done].
           ++ right. split; [|done].
              assert (filter (fun r0 => school r0 = school r) overlaps = []) as ->; [|done].
              apply filter_school_none. intros Hin. by apply Hout, Hkeys.
      * rewrite filter_cons_False by (intros Heq; by apply Hne). rewrite filter_nil, app_nil_r.
        rewrite Hgroups. split; [intros [? ->]; split; [by left|done]|].
        intros [[?|?] ->]; [done|congruence].
Qed.

Lemma group_by_school_keys overlaps :
  (group_by_school overlaps).*1 = reverse (remove_dups (reverse (school <$> overlaps))).
Proof.
  unfold group_by_school. induction overlaps as [|r overlaps IH] using rev_ind; [done|].
  rewrite foldl_app. cbn [foldl]. rewrite add_year_keys, IH, fmap_app, reverse_app.
  cbn [fmap list_fmap]. rewrite reverse_singleton. cbn [app remove_dups].
  destruct (decide_rel elem_of (school r) (reverse (school <$> overlaps))) as [Hin|Hout].
  - rewrite bool_decide_eq_true_2; [done|].
    by rewrite elem_of_reverse, elem_of_remove_dups.
  - rewrite bool_decide_eq_false_2; [by rewrite reverse_cons|].
    by rewrite elem_of_reverse, elem_of_remove_dups.
Qed.

Lemma items_of_keys {A} (f : string -> A) (items : list (string * A)) :
  (forall s a, (s, a) ∈ items -> a = f s) ->
  items = (fun s => (s, f s)) <$> items.*1.
Proof.
  induction items as [|[s a] items IH]; intros Hval; [done|].
  cbn [fmap list_fmap fst]. f_equal.
  - f_equal. apply Hval, list_elem_of_here.
  - apply IH. intros s' a' Hin. by apply Hval, list_elem_of_further.
Qed.

Lemma group_by_school_closed overlaps :
  group_by_school overlaps =
  (fun s => (s, academic_year <$> filter (fun r => school r = s) overlaps))
    <$> reverse (remove_dups (reverse (school <$> overlaps))).
Proof.
  rewrite <- group_by_school_keys. apply items_of_keys.
  intros s ys Hin. by apply group_by_school_spec in Hin as [_ ->].
Qed.

(** X20.  The summary has one part per school, in the order in which the
    schools first occur in the overlaps, the parts joined by "; "; a
    school's part is "SCHOOL (YEARS)" where YEARS are the academic years of
    all that school's records, sorted ascending and joined by ", ".  No
    overlaps give the empty line. *)
Theorem format_overlaps_summary_closed_form (overlaps : list OverlapRecord) :
  format_overlaps_summary overlaps =
    join "; "
      ((fun s => s +:+ " (" +:+
                 join ", " (sorted_years
                              (academic_year <$> filter (fun r => school r = s) overlaps))
                 +:+ ")")
         <$> reverse (remove_dups (reverse (school <$> overlaps)))) /\
  (forall years, Sorted String.le (sorted_years years) /\ sorted_years years ≡ₚ years) /\
  format_overlaps_summary [] = "".
Proof.
  split; [|split].
  - destruct overlaps as [|r overlaps]; [done|].
    unfold format_overlaps_summary. rewrite group_by_school_closed.
    by rewrite <- list_fmap_compose.
  - intros years. split.
    + apply Sorted_merge_sort. apply _.
    + apply merge_sort_Permutation.
  - reflexivity.
Qed.


(** * Properties of the per-coach and the all-coaches entry points *)

Example endswith_json : endswith "all_coaches.json" ".json" = true.
Proof. reflexivity. Qed.

Example endswith_short : endswith "son" ".json" = false.
Proof. reflexivity. Qed.

Example endswith_other : endswith "notes.json.bak" ".json" = false.
Proof. reflexivity. Qed.

Lemma cross_reference_coach_char coach_data nmdp normalizer config :
  exists res,
    cross_reference_coach coach_data nmdp normalizer config = Ok (res, normalizer) /\
    career_history res = default [] (data_career_history coach_data) /\
    overlap_count res = length (overlaps res) /\
    has_overlap res = bool_decide (0 < length (overlaps res))%nat /\
    (forall r, r ∈ overlaps res <->
       exists stint, stint ∈ career_history res /\
         emitted nmdp normalizer (config_year_start config) (config_year_end config)
                 stint r) /\
    Z.of_nat (length (overlaps res)) <=
      Z.of_nat (length (career_history res)) *
      Z.max 0 (config_year_end config - config_year_start config).
Proof.
  unfold cross_reference_coach, find_overlaps_for_coach. cbv zeta.
  destruct (find_overlaps_loop_char nmdp (config_year_start config)
              (config_year_end config) normalizer
              (default [] (data_career_history coach_data)))
    as (found & Hrun & Hchar & Hlen).
  rewrite Hrun. cbn. eexists. split; [reflexivity|]. cbn. done.
Qed.

(** X21.  For a coach whose fields are strings and whose stints hold
    strings (other data can make the source raise, and is not data of this
    development), [cross_reference_coach] leaves the normalizer as it was.
    Its [overlap_count] is the number of [overlaps]; [has_overlap] is true
    exactly when some stint of the coach's career history (none when the
    key is absent) emits a record in the configured window; without a
    configuration the window is 2020 to 2025, so there are at most six
    overlaps per stint. *)
Theorem cross_reference_coach_report (coach_data : CoachData)
    (nmdp : gmap string (list string)) (normalizer : SchoolNormalizer)
    (config : option Config) :
  exists res,
    cross_reference_coach coach_data nmdp normalizer config = Ok (res, normalizer) /\
    overlap_count res = length (overlaps res) /\
    (has_overlap res = true <->
       exists stint r,
         stint ∈ default [] (data_career_history coach_data) /\
         emitted nmdp normalizer (config_year_start config) (config_year_end config)
                 stint r) /\
    (config = None ->
       (overlap_count res <= 6 * length (default [] (data_career_history coach_data)))%nat) /\
    (data_career_history coach_data = None ->
       has_overlap res = false /\ overlaps res = []).
Proof.
  destruct (cross_reference_coach_char coach_data nmdp normalizer config)
    as (res & Hrun & Hhist & Hcount & Hhas & Hchar & Hlen).
  exists res. split; [done|]. split; [done|].
  rewrite Hhist in *. split; [|split].
  - rewrite Hhas. split.
    + intros Hpos%bool_decide_eq_true_1.
      destruct (overlaps res) as [|r rest] eqn:Ho; [cbn in Hpos; lia|].
      destruct (proj1 (Hchar r)) as (stint & Hin & Hem); [apply list_elem_of_here|].
      by exists stint, r.
    + intros (stint & r & Hin & Hem). apply bool_decide_eq_true_2.
      assert (r ∈ overlaps res) as Hr by (apply Hchar; by exists stint).
      destruct (overlaps res); [by apply elem_of_nil in Hr|cbn; lia].
  - intros ->. rewrite Hcount. cbn in Hlen. lia.
  - intros Hnone. rewrite Hnone in *. cbn in Hlen.
    destruct (overlaps res); [|cbn in Hlen; lia].
    split; [|done]. by rewrite Hhas.
Qed.

Lemma cross_reference_coach_report_witness :
  (exists res,
     cross_reference_coach
       {| data_name := Some "A. Coach"; data_current_position := Some "DC";
          data_current_school := Some "Oregon State"; data_research_status := None;
          data_career_history :=
            Some [<["school" := "Oregon State"]> (<["years" := "2019-present"]> ∅)] |}
       (<["OREGON STATE" := ["2019-2020"; "2025-2026"; "2026-2027"]]> ∅)
       (new_normalizer (<["Oregon State" := ["2025-2026"]]> ∅) []) None =
       Ok (res, new_normalizer (<["Oregon State" := ["2025-2026"]]> ∅) []) /\
     has_overlap res = true /\ (overlap_count res <= 6 * 1)%nat) /\
  (exists res,
     cross_reference_coach
       {| data_name := Some "A. Coach"; data_current_position := None;
          data_current_school := None; data_research_status := None;
          data_career_history := None |}
       (<["OREGON STATE" := ["2019-2020"; "2025-2026"; "2026-2027"]]> ∅)
       (new_normalizer (<["Oregon State" := ["2025-2026"]]> ∅) [])
       (Some {| year_range := Some {| range_start := Some 2021; range_end := None |} |}) =
       Ok (res, new_normalizer (<["Oregon State" := ["2025-2026"]]> ∅) []) /\
     has_overlap res = false /\ overlaps res = []).
Proof.
  split.
  - destruct (cross_reference_coach_report
                {| data_name := Some "A. Coach"; data_current_position := Some "DC";
                   data_current_school := Some "Oregon State"; data_research_status := None;
                   data_career_history :=
                     Some [<["school" := "Oregon State"]>
                             (<["years" := "2019-present"]> ∅)] |}
                (<["OREGON STATE" := ["2019-2020"; "2025-2026"; "2026-2027"]]> ∅)
                (new_normalizer (<["Oregon State" := ["2025-2026"]]> ∅) []) None)
      as (res & Hrun & _ & Hhas & Hbound & _).
    exists res. split; [exact Hrun|]. split; [|exact (Hbound eq_refl)].
    apply Hhas.
    exists (<["school" := "Oregon State"]> (<["years" := "2019-present"]> ∅)),
           (overlap_record (new_normalizer (<["Oregon State" := ["2025-2026"]]> ∅) [])
              (<["school" := "Oregon State"]> (<["years" := "2019-present"]> ∅)) 2025).
    split; [apply list_elem_of_here|].
    exists [2019; 2020; 2021; 2022; 2023; 2024; 2025],
           ["2019-2020"; "2025-2026"; "2026-2027"], 2025.
    split; [discriminate|]. split; [discriminate|]. split; [reflexivity|].
    split; [reflexivity|]. split; [reflexivity|].
    split; [do 6 apply list_elem_of_further; apply list_elem_of_here|].
    split; [unfold config_year_start, config_year_end; cbn; lia|].
    split; [apply list_elem_of_further, list_elem_of_here|reflexivity].
  - destruct (cross_reference_coach_report
                {| data_name := Some "A. Coach"; data_current_position := None;
                   data_current_school := None; data_research_status := None;
                   data_career_history := None |}
                (<["OREGON STATE" := ["2019-2020"; "2025-2026"; "2026-2027"]]> ∅)
                (new_normalizer (<["Oregon State" := ["2025-2026"]]> ∅) [])
                (Some {| year_range :=
                           Some {| range_start := Some 2021; range_end := None |} |}))
      as (res & Hrun & _ & _ & _ & Hnone).
    exists res. split; [exact Hrun|]. exact (Hnone eq_refl).
Defined.

Lemma cross_reference_list_char nmdp normalizer config coaches : forall results,
  exists found,
    cross_reference_list coaches nmdp normalizer config results =
      (results ++ found, normalizer) /\
    Forall2 (fun coach res =>
               cross_reference_coach coach nmdp normalizer config = Ok (res, normalizer))
            coaches found.
Proof.
  induction coaches as [|coach rest IH]; intros results.
  - exists []. split; [by rewrite app_nil_r|constructor].
  - destruct (cross_reference_coach_char coach nmdp normalizer config) as (res & Hrun & _).
    destruct (IH (results ++ [res])) as (found & Hrest & Hall).
    exists (res :: found). split.
    + cbn [cross_reference_list]. rewrite Hrun, Hrest. by rewrite <- app_assoc.
    + by constructor.
Qed.

Lemma cross_reference_files_char nmdp normalizer config files : forall results,
  exists found,
    cross_reference_files files nmdp normalizer config results =
      (results ++ found, normalizer) /\
    Forall2 (fun coach res =>
               cross_reference_coach coach nmdp normalizer config = Ok (res, normalizer))
            (flat_map coaches_of files) found.
Proof.
  induction files as [|[filename loaded] rest IH]; intros results.
  - exists []. split; [by rewrite app_nil_r|constructor].
  - assert (exists found1,
              match loaded with
              | None => (results, normalizer)
              | Some (AllCoaches coaches) =>
                  cross_reference_list coaches nmdp normalizer config results
              | Some (SingleCoach coach) =>
                  cross_reference_list [coach] nmdp normalizer config results
              end = (results ++ found1, normalizer) /\
              Forall2 (fun coach res =>
                         cross_reference_coach coach nmdp normalizer config =
                         Ok (res, normalizer))
                      (coaches_of (filename, loaded)) found1) as (found1 & Hfile & Hall1).
    { destruct loaded as [[coaches|coach]|]; unfold coaches_of; cbn [snd].
      - apply cross_reference_list_char.
      - apply cross_reference_list_char.
      - exists []. split; [by rewrite app_nil_r|constructor]. }
    destruct (IH (results ++ found1)) as (found2 & Hrest & Hall2).
    exists (found1 ++ found2). split.
    + cbn [cross_reference_files]. rewrite Hfile, Hrest. by rewrite <- app_assoc.
    + cbn [flat_map]. by apply Forall2_app.
Qed.

Lemma dom_upper_keys items :
  dom (upper_keys items) = set_map (D := gset string) upper (dom (list_to_map (M := gmap string (list string)) items)).
Proof.
  unfold upper_keys.
  assert (forall m : gmap string (list string),
            dom (foldl (fun m '(k, v) => <[upper k := v]> m) m items) =
            dom m ∪ set_map (D := gset string) upper
                      (dom (list_to_map (M := gmap string (list string)) items)))
    as Hgen.
  { induction items as [|[k v] items IH]; intros m.
    - cbn. rewrite dom_empty_L, set_map_empty. by rewrite (right_id_L ∅ (∪)).
    - cbn [foldl]. rewrite IH. cbn.
      rewrite !dom_insert_L, set_map_union_L, set_map_singleton_L.
      rewrite (comm_L (∪) {[upper k]} (dom m)). by rewrite (assoc_L (∪)). }
  rewrite Hgen, dom_empty_L. by rewrite (left_id_L ∅ (∪)).
Qed.

(** X22.  When every file that loads holds coaches whose fields are
    strings and whose stints hold strings (so that no call of
    [cross_reference_coach] raises; a file with other data loses, in the
    source, the coach that raises and the rest of its array),
    [cross_reference_all_coaches] returns one result per coach of the
    listed files whose name ends in ".json" and that load, in the order of
    the listing and of each file; files that do not load and other file
    names add nothing, and nothing is returned when the path is not a
    directory.  Each result is what [cross_reference_coach] gives for that
    coach with the database keyed in upper case, whose keys are the
    normalizer's [nmdp_schools]. *)
Theorem cross_reference_all_coaches_results
    (listing : list (string * option CoachFile))
    (db_items al : list (string * list string)) (config : option Config) :
  Forall2 (fun coach res =>
             cross_reference_coach coach (upper_keys db_items)
               (new_normalizer (list_to_map db_items) al) config =
             Ok (res, new_normalizer (list_to_map db_items) al))
          (flat_map coaches_of (filter (fun f => endswith f.1 ".json" = true) listing))
          (cross_reference_all_coaches true listing db_items al config) /\
  cross_reference_all_coaches false listing db_items al config = [] /\
  dom (upper_keys db_items) = nmdp_schools (new_normalizer (list_to_map db_items) al).
Proof.
  split; [|split].
  - unfold cross_reference_all_coaches. cbv zeta.
    destruct (cross_reference_files_char (upper_keys db_items)
                (new_normalizer (list_to_map db_items) al) config
                (filter (fun f => endswith f.1 ".json" = true) listing) [])
      as (found & -> & Hall).
    done.
  - reflexivity.
  - apply dom_upper_keys.
Qed.


(** * The log and the answers of the normalizer *)

(** X23.  The fuzzy-match log never influences an answer: a name gets the
    same answer after any earlier call of [normalize] and after
    [clear_fuzzy_match_log].  After clearing, the log is empty, and a call
    of [normalize], with any threshold, leaves in it just the entry of that
    call (the name as given, the answer and its score) if it matched
    fuzzily, and nothing otherwise. *)
Theorem normalize_ignores_log (self : SchoolNormalizer) (earlier name : string)
    (earlier_fuzzy use_fuzzy : bool) (earlier_threshold threshold : Q) :
  (normalize (normalize self earlier earlier_fuzzy earlier_threshold).2
             name use_fuzzy threshold).1 =
    (normalize self name use_fuzzy threshold).1 /\
  (normalize (clear_fuzzy_match_log self) name use_fuzzy threshold).1 =
    (normalize self name use_fuzzy threshold).1 /\
  get_fuzzy_match_log (clear_fuzzy_match_log self) = [] /\
  get_fuzzy_match_log (normalize (clear_fuzzy_match_log self) name use_fuzzy threshold).2 =
    match (normalize self name use_fuzzy threshold).1 with
    | (m, Fuzzy) =>
        [{| original := name; matched_to := m;
            score := Difflib.similarity (clean_school_name name) (upper m) |}]
    | _ => []
    end.
Proof.
  split; [|split; [|split]].
  - apply normalize_same_tables.
    + unfold normalize. cbv zeta.
      destruct (bool_decide _); [done|].
      destruct (reverse_aliases self !! _); [done|].
      by destruct (if earlier_fuzzy then _ else _) as [[m sc]|].
    + unfold normalize. cbv zeta.
      destruct (bool_decide _); [done|].
      destruct (reverse_aliases self !! _); [done|].
      by destruct (if earlier_fuzzy then _ else _) as [[m sc]|].
  - by apply normalize_same_tables.
  - reflexivity.
  - unfold normalize, get_fuzzy_match_log, clear_fuzzy_match_log. cbv zeta.
    cbn [nmdp_schools reverse_aliases fuzzy_match_log].
    destruct (bool_decide _); [done|].
    destruct (reverse_aliases self !! _); [done|].
    destruct use_fuzzy; [|done].
    destruct (fuzzy_match _ _ _) as [[m sc]|] eqn:Hf; [|done].
    apply fuzzy_match_some in Hf as (_ & _ & -> & _).
    destruct (clean_school_name_tidy name) as [_ Hu]. rewrite Hu.
    reflexivity.
Qed.

Example normalize_ignores_log_at_nine_tenths :
  get_fuzzy_match_log
    (normalize (clear_fuzzy_match_log exact_alias_clash) "Oregon Stat" true (9 # 10)).2 =
  [{| original := "Oregon Stat"; matched_to := "OREGON STATE";
      score := Difflib.similarity "OREGON STAT" "OREGON STATE" |}].
Proof. vm_compute. reflexivity. Qed.

Lemma find_overlaps_for_coach_count_witness :
  find_overlaps_for_coach
    [<["school" := "Oregon State"]> (<["years" := "2020-2022"]> ∅)]
    (<["OREGON STATE" := ["2020-2021"]]> ∅)
    (new_normalizer (<["Oregon State" := ["2020-2021"]]> ∅) []) 2026 2020 =
  Ok ([], new_normalizer (<["Oregon State" := ["2020-2021"]]> ∅) []).
Proof.
  destruct (find_overlaps_for_coach_count
              [<["school" := "Oregon State"]> (<["years" := "2020-2022"]> ∅)]
              (<["OREGON STATE" := ["2020-2021"]]> ∅)
              (new_normalizer (<["Oregon State" := ["2020-2021"]]> ∅) []) 2026 2020)
    as (found & Hrun & _ & Hempty).
  rewrite Hrun. rewrite Hempty; [reflexivity|lia].
Defined.

Lemma normalize_batch_pointwise_witness :
  (normalize_batch exact_alias_clash ["Oregon State"; "Unheard Of"] false).2 =
  exact_alias_clash.
Proof.
  apply (proj2 (proj2 (proj2 (proj2 (proj2
           (normalize_batch_pointwise exact_alias_clash
              ["Oregon State"; "Unheard Of"] false)))))).
  reflexivity.
Defined.


(** * Certain matches and certain misses of the fuzzy matcher *)

(** X24.  With a threshold above 1 [fuzzy_match] finds nothing.  With a
    threshold of at most 1, a candidate other than the empty name that
    equals the name up to letter case makes [fuzzy_match] return a
    candidate with score 1. *)
Theorem fuzzy_match_case_variant (name : string) (candidates : gset string)
    (threshold : Q) :
  ((1 < threshold)%Q -> fuzzy_match name candidates threshold = None) /\
  (forall c, c ∈ candidates -> c <> "" -> upper c = upper name -> (threshold <= 1)%Q ->
     exists m sc, fuzzy_match name candidates threshold = Some (m, sc) /\
                  m ∈ candidates /\ (sc == 1)%Q).
Proof.
  split.
  - intros Hth. destruct (fuzzy_match name candidates threshold) as [[m sc]|] eqn:Hfm; [|done].
    apply fuzzy_match_some in Hfm as (_ & _ & _ & Hge & _ & Hle & _).
    exfalso. apply (Qlt_irrefl 1). eapply Qlt_le_trans; [exact Hth|]. eapply Qle_trans; [exact Hge|exact Hle].
  - intros c Hc Hne Heq Hth.
    assert (Difflib.similarity (upper name) (upper c) == 1)%Q as Hone.
    { rewrite Heq. unfold Difflib.similarity. apply DifflibFacts.ratio_self. }
    destruct (fuzzy_match name candidates threshold) as [[m sc]|] eqn:Hfm.
    + apply fuzzy_match_some in Hfm as (Hm & _ & _ & _ & _ & Hle & Hmax).
      exists m, sc. split; [done|]. split; [done|].
      apply Qle_antisym; [done|]. rewrite <- Hone. apply Hmax; [done|].
      by rewrite Hone.
    + exfalso. apply (fuzzy_match_none _ _ _ Hfm c Hc Hne). rewrite Hone. by split.
Qed.

Lemma fuzzy_match_case_variant_witness :
  exists m sc,
    fuzzy_match "Oregon State" {[ "OREGON STATE"; "OHIO STATE" ]} (85 # 100) = Some (m, sc) /\
    m ∈ ({[ "OREGON STATE"; "OHIO STATE" ]} : gset string) /\ (sc == 1)%Q.
Proof.
  apply (proj2 (fuzzy_match_case_variant "Oregon State"
                  {[ "OREGON STATE"; "OHIO STATE" ]} (85 # 100)) "OREGON STATE").
  - apply elem_of_union. left. by apply elem_of_singleton.
  - discriminate.
  - reflexivity.
  - vm_compute. discriminate.
Defined.
